(** * aligned-memory-battle: the hand-rolled aligned allocator of benchmark.cpp

    A shallow embedding of [aligned_malloc], [aligned_free], [benchmark] and
    [main] of [src/benchmark.cpp], and the properties of the design document
    proved about it.

    Conventions of the embedding.
    - [size_t] and [uintptr_t] are unsigned integers of the width of a data
      pointer, [8 * psz] bits where [psz] is the size of a [void] pointer; a
      value is a [Z] in [0, modulus psz) and every operator writes its
      wrap-around out.
    - The platform (the [malloc]/[free] pair, [std::aligned_alloc], the
      clock) is not part of the repository: it is a record of oracles, and a
      theorem states what it needs from them as a hypothesis.
    - An access outside a live block, and a [free] of something that is not
      the base of a live block, are undefined in C++: the embedding returns
      [None] there. *)

From Stdlib Require Import ZArith Zbitwise Lia Ascii String.
From stdpp Require Import base option list gmap strings pretty.

Local Open Scope Z_scope.

(** ** Unsigned arithmetic of pointer width *)

Module SizeT.

(** Number of values of a [size_t] when a pointer has [psz] bytes. *)
Definition modulus (psz : Z) : Z := 2 ^ (8 * psz).

Definition wrap (psz z : Z) : Z := z mod modulus psz.

(** [a + b], [a - b], [~a] and [a & b] on [size_t]. *)
Definition add (psz a b : Z) : Z := wrap psz (a + b).
Definition sub (psz a b : Z) : Z := wrap psz (a - b).
Definition not (psz a : Z) : Z := wrap psz (Z.lnot a).
Definition and (a b : Z) : Z := Z.land a b.

(** The values a [size_t] variable can hold. *)
Definition in_range (psz z : Z) : Prop := 0 <= z < modulus psz.

End SizeT.

(** ** Line 8 and line 12 of benchmark.cpp *)

(** The argument of [malloc] on line 8:
    [size + alignment + sizeof(void* )], left to right, in [size_t]. *)
Definition request (psz size alignment : Z) : Z :=
  SizeT.add psz (SizeT.add psz size alignment) psz.

(** Line 12:
    [(reinterpret_cast<uintptr_t>(raw_mem) + alignment + sizeof(void* ))
       & ~(alignment - 1)]. *)
Definition aligned_addr (psz raw_mem alignment : Z) : Z :=
  SizeT.and (SizeT.add psz (SizeT.add psz raw_mem alignment) psz)
            (SizeT.not psz (SizeT.sub psz alignment 1)).

(** Address of element [-1] of a [void**] that points at [p] (lines 15 and
    25): one pointer below [p]. *)
Definition slot_addr (psz p : Z) : Z := SizeT.sub psz p psz.

(** ** The platform and the heap *)

(** Calls that reach the platform's allocator, in program order. *)
Inductive call : Type :=
| Malloc (n r : Z)              (* [malloc(n)] returned [r] *)
| AlignedAlloc (al n r : Z)     (* [std::aligned_alloc(al, n)] returned [r] *)
| Free (p : Z).                 (* [free(p)] *)

(** [live]: the blocks handed out and not yet freed, base address to length
    in bytes. [cells]: the pointer objects the program has written, by
    address. [calls]: the allocator calls made so far. *)
Record heap : Type := Heap {
  live : gmap Z Z;
  cells : gmap Z Z;
  calls : list call
}.

Definition empty_heap : heap := Heap ∅ ∅ [].

(** What the program consumes from the platform. [raw_pick h n] is the
    address [malloc(n)] answers in heap [h] and [ref_pick h al n] the one
    [std::aligned_alloc(al, n)] answers, [0] for a null pointer; [clock i] is
    the [i]-th reading of [high_resolution_clock::now()] and [micros s e] is
    [duration_cast<microseconds>(e - s).count()]. *)
Record platform : Type := Platform {
  ptr_size : Z;
  raw_pick : heap -> Z -> Z;
  ref_pick : heap -> Z -> Z -> Z;
  clock : nat -> Z;
  micros : Z -> Z -> Z
}.

(** A block of [n] bytes at [r] as an allocator may hand it out: [r] is not
    null and the block, with its one-past-the-end address, lies in the
    address space. *)
Definition valid_block (psz r n : Z) : Prop :=
  0 < r /\ r + n < SizeT.modulus psz.

(** [covers a len b]: the [len] bytes at [a] lie inside block [b]. *)
Definition covers (a len : Z) (b : Z * Z) : bool :=
  (b.1 <=? a) && (a + len <=? b.1 + b.2).

Definition in_live (h : heap) (a len : Z) : bool :=
  existsb (covers a len) (map_to_list (live h)).

(** Writing and reading a [void*] object at address [a]. *)
Definition store_ptr (psz : Z) (h : heap) (a v : Z) : option heap :=
  if in_live h a psz then Some (Heap (live h) (<[a := v]> (cells h)) (calls h))
  else None.

Definition load_ptr (psz : Z) (h : heap) (a : Z) : option Z :=
  if in_live h a psz then cells h !! a else None.

Definition log (c : call) (h : heap) : heap :=
  Heap (live h) (cells h) (calls h ++ [c]).

Definition grant (r n : Z) (h : heap) : heap :=
  if bool_decide (r = 0) then h else Heap (<[r := n]> (live h)) (cells h) (calls h).

Definition malloc (P : platform) (h : heap) (n : Z) : Z * heap :=
  let r := raw_pick P h n in (r, log (Malloc n r) (grant r n h)).

Definition std_aligned_alloc (P : platform) (h : heap) (al n : Z) : Z * heap :=
  let r := ref_pick P h al n in (r, log (AlignedAlloc al n r) (grant r n h)).

(** [free(p)]: nothing to release for a null pointer; otherwise [p] must be
    the base of a live block, which goes away with its contents. *)
Definition free (h : heap) (p : Z) : option heap :=
  if bool_decide (p = 0) then Some (log (Free p) h)
  else match live h !! p with
       | Some n =>
           Some (log (Free p)
                   (Heap (delete p (live h))
                         (filter (fun c => ~ (p <= c.1 < p + n)) (cells h))
                         (calls h)))
       | None => None
       end.

(** ** aligned_malloc and aligned_free (lines 6 to 27) *)

(** Line 8 asks [malloc] for the request; line 9 returns null when it
    answers null; line 12 computes the address, line 15 stores [raw_mem] in
    the slot below it and line 18 returns it. *)
Definition aligned_malloc (P : platform) (h : heap) (size alignment : Z)
  : option (Z * heap) :=
  let '(raw_mem, h1) := malloc P h (request (ptr_size P) size alignment) in
  if bool_decide (raw_mem = 0) then Some (0, h1)
  else
    let a := aligned_addr (ptr_size P) raw_mem alignment in
    h2 ← store_ptr (ptr_size P) h1 (slot_addr (ptr_size P) a) raw_mem;
    Some (a, h2).

(** Line 23 guards against the null handle; line 25 loads the slot below
    the handle and passes what it holds to [free]. *)
Definition aligned_free (psz : Z) (h : heap) (aligned_mem : Z) : option heap :=
  if bool_decide (aligned_mem = 0) then Some h
  else p ← load_ptr psz h (slot_addr psz aligned_mem); free h p.

(** ** Two platforms to run the code on *)

(** A 64-bit platform whose [malloc] answers the same, misaligned, address
    to every request below 2^47 bytes and null to the others, and whose clock
    advances 1500 ticks of a nanosecond per reading. *)
Definition fake_platform : platform :=
  Platform 8 (fun _ n => if bool_decide (0 <= n < 2 ^ 47) then 4104 else 0)
           (fun _ _ _ => 8192)
           (fun i => 1500 * Z.of_nat i) (fun s e => (e - s) `quot` 1000).

(** A 64-bit platform out of memory. *)
Definition exhausted_platform : platform :=
  Platform 8 (fun _ _ => 0) (fun _ _ _ => 0)
           (fun i => 1500 * Z.of_nat i) (fun s e => (e - s) `quot` 1000).

(** The bytes of the [len]-byte object at address [a]. *)
Definition bytes_at (a len x : Z) : Prop := a <= x < a + len.

(** ** The driver (lines 32 to 67) *)

(** The process: its heap, the number of clock readings taken so far and
    what it has written to standard output. *)
Record world : Type := World {
  mem : heap;
  reads : nat;
  out : string
}.

(** [high_resolution_clock::now()]. *)
Definition now (P : platform) (w : world) : Z * world :=
  (clock P (reads w), World (mem w) (S (reads w)) (out w)).

(** [std::cout << s] for a string and for an integer count. *)
Definition print_str (s : string) (w : world) : world :=
  World (mem w) (reads w) (out w +:+ s).

Definition print_count (z : Z) (w : world) : world := print_str (pretty z) w.

Definition newline : string := String "010"%char EmptyString.

Definition on_mem (f : heap -> option heap) (w : world) : option world :=
  h ← f (mem w); Some (World h (reads w) (out w)).

(** [for (int i = 0; i < iterations; ++i) body], the body not touching
    [i]: [n] runs of the body. *)
Fixpoint loop (n : nat) (body : heap -> option heap) (h : heap) : option heap :=
  match n with
  | O => Some h
  | S n' => h' ← body h; loop n' body h'
  end.

(** Lines 38 and 39. *)
Definition ref_round (P : platform) (size alignment : Z) (h : heap) : option heap :=
  let '(ptr, h1) := std_aligned_alloc P h alignment size in free h1 ptr.

(** Lines 49 and 50. *)
Definition own_round (P : platform) (size alignment : Z) (h : heap) : option heap :=
  '(ptr, h1) ← aligned_malloc P h size alignment;
  aligned_free (ptr_size P) h1 ptr.

Definition benchmark (P : platform) (w : world) (size alignment iterations : Z)
  : option world :=
  let '(start, w) := now P w in
  w ← on_mem (loop (Z.to_nat iterations) (ref_round P size alignment)) w;
  let '(end_, w) := now P w in
  let w := print_str "std::aligned_alloc: " w in
  let w := print_count (micros P start end_) w in
  let w := print_str (" us" +:+ newline) w in
  let '(start, w) := now P w in
  w ← on_mem (loop (Z.to_nat iterations) (own_round P size alignment)) w;
  let '(end_, w) := now P w in
  let w := print_str "aligned_malloc: " w in
  let w := print_count (micros P start end_) w in
  let w := print_str (" us" +:+ newline) w in
  Some w.

(** An [int] argument converted to the [size_t] parameter it is passed for. *)
Definition to_size_t (psz z : Z) : Z := SizeT.wrap psz z.

(** [main]: the five calls, then [return 0]. *)
Definition main (P : platform) (w : world) : option (Z * world) :=
  let sz := to_size_t (ptr_size P) in
  w ← benchmark P w (sz 64) (sz 16) 100000;
  w ← benchmark P w (sz 128) (sz 32) 100000;
  w ← benchmark P w (sz 256) (sz 64) 100000;
  w ← benchmark P w (sz 1024) (sz 64) 100000;
  w ← benchmark P w (sz (1024 * 1024)) (sz 64) 1000;
  Some (0, w).

(** ** What the driver is expected to do *)

(** An allocation request as the allocator sees it, without the answer. *)
Inductive req : Type :=
| RefReq (al n : Z)      (* [std::aligned_alloc(al, n)] *)
| RawReq (n : Z).        (* [malloc(n)] *)

Definition req_of (c : call) : option req :=
  match c with
  | Malloc n _ => Some (RawReq n)
  | AlignedAlloc al n _ => Some (RefReq al n)
  | Free _ => None
  end.

Definition requests (cs : list call) : list req := omap req_of cs.

(** The benchmark matrix of the design document: size, alignment,
    iterations. *)
Definition configs : list (Z * Z * Z) :=
  [(64, 16, 100000); (128, 32, 100000); (256, 64, 100000);
   (1024, 64, 100000); (1048576, 64, 1000)].

(** The allocation requests one row of the matrix stands for: [n] requests to
    the reference facility, then [n] raw requests of the over-allocated
    length. *)
Definition config_requests (psz : Z) (c : Z * Z * Z) : list req :=
  let '(size, al, n) := c in
  replicate (Z.to_nat n) (RefReq al size)
  ++ replicate (Z.to_nat n) (RawReq (size + al + psz)).

(** One line of the report, and the two lines of the row whose first clock
    reading is number [c]. *)
Definition timing_line (label : string) (us : Z) : string :=
  label +:+ pretty us +:+ " us" +:+ newline.

Definition row_report (P : platform) (c : nat) : string :=
  timing_line "std::aligned_alloc: " (micros P (clock P c) (clock P (1 + c)))
  +:+ timing_line "aligned_malloc: " (micros P (clock P (2 + c)) (clock P (3 + c))).

Definition report (P : platform) (c : nat) : string :=
  row_report P c +:+ row_report P (4 + c) +:+ row_report P (8 + c)
  +:+ row_report P (12 + c) +:+ row_report P (16 + c).

(** Number of line ends in a text. *)
Fixpoint count_lines (s : string) : nat :=
  match s with
  | EmptyString => O
  | String c s' => ((if Ascii.eqb c "010" then 1 else 0) + count_lines s')%nat
  end.

(** A [malloc] that answers null or a block that lies in the address
    space. *)
Definition raw_sound (P : platform) : Prop :=
  forall h n, raw_pick P h n = 0 \/ valid_block (ptr_size P) (raw_pick P h n) n.

(** The process as it starts: nothing allocated, nothing printed. *)
Definition boot : world := World empty_heap 0 EmptyString.

(** A [malloc], and a reference facility, that never answer the base of a
    block still in use. *)
Definition raw_fresh (P : platform) : Prop :=
  forall h n, raw_pick P h n <> 0 -> live h !! raw_pick P h n = None.

Definition ref_fresh (P : platform) : Prop :=
  forall h al n, ref_pick P h al n <> 0 -> live h !! ref_pick P h al n = None.

(** Two blocks that share no byte. *)
Definition blocks_apart (r1 n1 r2 n2 : Z) : Prop :=
  r1 + n1 <= r2 \/ r2 + n2 <= r1.

(** A 64-bit platform with room for one raw block, at 4104, and one
    reference block, at 8192: each allocator answers its address while the
    block is free and the request is below 2^47 bytes, and null otherwise. *)
Definition slot_platform : platform :=
  Platform 8
    (fun h n => if bool_decide (0 <= n < 2 ^ 47 /\ live h !! 4104 = None)
                then 4104 else 0)
    (fun h _ n => if bool_decide (0 <= n < 2 ^ 47 /\ live h !! 8192 = None)
                  then 8192 else 0)
    (fun i => 1500 * Z.of_nat i) (fun s e => (e - s) `quot` 1000).

(** A 64-bit platform whose [malloc] answers a new, misaligned, address a
    page above the last for each call it has seen, for requests of less than
    4000 bytes, and null for the others. *)
Definition paging_platform : platform :=
  Platform 8
    (fun h n => if bool_decide (0 <= n < 4000)
                then 4104 + 4096 * Z.of_nat (length (calls h)) else 0)
    (fun _ _ _ => 0)
    (fun i => 1500 * Z.of_nat i) (fun s e => (e - s) `quot` 1000).

(** ** The code run on the two platforms *)

(** Scenario 1 of the design document: [aligned_malloc(64, 16)]; the raw
    block is at 4104, the handle 4128 is a multiple of 16 and the cell at
    [4128 - 8] holds 4104. *)
Example aligned_malloc_64_16 :
  (fun r => (r.1, r.1 mod 16, load_ptr 8 r.2 (r.1 - 8), calls r.2))
    <$> aligned_malloc fake_platform empty_heap 64 16
  = Some (4128, 0, Some 4104, [Malloc 88 4104]).
Proof. vm_compute. reflexivity. Qed.

(** Scenario 2: one megabyte, alignment 64. *)
Example aligned_malloc_1M_64 :
  (fun r => (r.1, r.1 mod 64, load_ptr 8 r.2 (r.1 - 8), calls r.2))
    <$> aligned_malloc fake_platform empty_heap (1024 * 1024) 64
  = Some (4160, 0, Some 4104, [Malloc 1048648 4104]).
Proof. vm_compute. reflexivity. Qed.

(** The release that follows scenario 1 frees the raw block. *)
Example aligned_free_64_16 :
  (fun h => (map_to_list (live h), calls h))
    <$> (aligned_malloc fake_platform empty_heap 64 16
           ≫= fun r => aligned_free 8 r.2 r.1)
  = Some ([], [Malloc 88 4104; Free 4104]).
Proof. vm_compute. reflexivity. Qed.

(** Scenario 3: exhaustion, then the release of the null handle. *)
Example aligned_malloc_exhausted_64_16 :
  (fun r => (r.1, calls r.2, calls <$> aligned_free 8 r.2 r.1))
    <$> aligned_malloc exhausted_platform empty_heap 64 16
  = Some (0, [Malloc 88 0], Some [Malloc 88 0]).
Proof. vm_compute. reflexivity. Qed.

(** Alignment 0: the store of line 15 is outside every block. *)
Example aligned_malloc_alignment_0 :
  aligned_malloc fake_platform empty_heap 64 0 = None.
Proof. vm_compute. reflexivity. Qed.

Example report_fake :
  report fake_platform 0 =
  "std::aligned_alloc: 1 us" +:+ newline +:+ "aligned_malloc: 1 us" +:+ newline +:+
  "std::aligned_alloc: 1 us" +:+ newline +:+ "aligned_malloc: 1 us" +:+ newline +:+
  "std::aligned_alloc: 1 us" +:+ newline +:+ "aligned_malloc: 1 us" +:+ newline +:+
  "std::aligned_alloc: 1 us" +:+ newline +:+ "aligned_malloc: 1 us" +:+ newline +:+
  "std::aligned_alloc: 1 us" +:+ newline +:+ "aligned_malloc: 1 us" +:+ newline.
Proof. vm_compute. reflexivity. Qed.

Example benchmark_fake_small :
  (fun w => (out w, requests (calls (mem w))))
    <$> benchmark fake_platform (World empty_heap 0 EmptyString) 64 16 2
  = Some ("std::aligned_alloc: 1 us" +:+ newline +:+ "aligned_malloc: 1 us" +:+ newline,
          [RefReq 16 64; RefReq 16 64; RawReq 88; RawReq 88]).
Proof. vm_compute. reflexivity. Qed.

(** ** Arithmetic lemmas *)

Section Arith.
Variable psz : Z.
Hypothesis psz_pos : 0 < psz.

Lemma modulus_pos : 0 < SizeT.modulus psz.
Proof. unfold SizeT.modulus. apply Z.pow_pos_nonneg; lia. Qed.

Lemma wrap_range z : SizeT.in_range psz (SizeT.wrap psz z).
Proof. unfold SizeT.in_range, SizeT.wrap. apply Z.mod_pos_bound, modulus_pos. Qed.

Lemma wrap_small z : SizeT.in_range psz z -> SizeT.wrap psz z = z.
Proof. unfold SizeT.in_range, SizeT.wrap. intros H. by apply Z.mod_small. Qed.

(** A pointer is much smaller than the address space it addresses. *)
Lemma psz_lt_half : psz < 2 ^ (8 * psz - 1).
Proof.
  assert (8 * psz - 1 < 2 ^ (8 * psz - 1)) by (apply Z.pow_gt_lin_r; lia).
  lia.
Qed.

Lemma modulus_double : SizeT.modulus psz = 2 * 2 ^ (8 * psz - 1).
Proof.
  unfold SizeT.modulus. rewrite <- Z.pow_succ_r by lia. f_equal. lia.
Qed.

Lemma pow2_le_half k : 0 <= k < 8 * psz -> 0 < 2 ^ k <= 2 ^ (8 * psz - 1).
Proof.
  intros Hk. split; [apply Z.pow_pos_nonneg; lia|].
  apply Z.pow_le_mono_r; lia.
Qed.

(** The mask [~(2^k - 1)] keeps the bits from position [k] upward: and-ing
    an in-range value with it clears the low [k] bits. *)
Lemma and_mask_pow2 x k :
  0 <= k < 8 * psz -> SizeT.in_range psz x ->
  SizeT.and x (SizeT.not psz (SizeT.sub psz (2 ^ k) 1)) = 2 ^ k * (x / 2 ^ k).
Proof.
  intros Hk Hx.
  pose proof (pow2_le_half k Hk) as Hp. pose proof modulus_double as Hm.
  unfold SizeT.and, SizeT.not, SizeT.sub.
  rewrite (wrap_small (2 ^ k - 1)) by (unfold SizeT.in_range; lia).
  unfold SizeT.wrap, SizeT.modulus.
  rewrite <- Z.land_ones by lia.
  rewrite (Z.land_comm (Z.lnot _)), Z.land_assoc.
  rewrite (Z.land_ones x) by lia.
  fold (SizeT.modulus psz). fold (SizeT.wrap psz x). rewrite wrap_small by done.
  rewrite Z.sub_1_r, <- Z.ones_equiv.
  rewrite <- Z.ldiff_land, Z.ldiff_ones_r by lia.
  rewrite Z.shiftr_div_pow2, Z.shiftl_mul_pow2 by lia. lia.
Qed.

End Arith.

(** ** Facts about the address computation *)

Section Address.
Variable psz : Z.
Hypothesis psz_pos : 0 < psz.

(** Line 12 clears the low [k] bits of the wrapped sum. *)
Lemma aligned_addr_pow2 r k :
  0 <= k < 8 * psz ->
  aligned_addr psz r (2 ^ k)
  = 2 ^ k * (SizeT.add psz (SizeT.add psz r (2 ^ k)) psz / 2 ^ k).
Proof.
  intros Hk. unfold aligned_addr.
  apply and_mask_pow2; [done..|]. apply wrap_range; done.
Qed.

Lemma aligned_addr_mod r k :
  0 <= k < 8 * psz -> aligned_addr psz r (2 ^ k) mod 2 ^ k = 0.
Proof.
  intros Hk. rewrite aligned_addr_pow2 by done.
  rewrite Z.mul_comm. apply Z.mod_mul.
  pose proof (pow2_le_half psz k Hk). lia.
Qed.

(** Without wrap-around the sum of line 12 is the mathematical one. *)
Lemma sum_no_wrap r al :
  0 <= r -> 0 <= al -> r + al + psz < SizeT.modulus psz ->
  SizeT.add psz (SizeT.add psz r al) psz = r + al + psz.
Proof.
  intros Hr Hal Hlt. unfold SizeT.add.
  rewrite (wrap_small psz (r + al)) by (unfold SizeT.in_range; lia).
  apply wrap_small. unfold SizeT.in_range; lia.
Qed.

(** Rounding [x] down to a multiple of [a] loses less than [a]. *)
Lemma round_down_bounds x a : 0 < a -> x - a < a * (x / a) <= x.
Proof.
  intros Ha. pose proof (Z.div_mod x a ltac:(lia)).
  pose proof (Z.mod_pos_bound x a Ha). lia.
Qed.

Lemma aligned_addr_exact r k :
  0 <= k < 8 * psz -> valid_block psz r (2 ^ k + psz) ->
  aligned_addr psz r (2 ^ k) = 2 ^ k * ((r + 2 ^ k + psz) / 2 ^ k)
  /\ r + psz < aligned_addr psz r (2 ^ k) <= r + 2 ^ k + psz.
Proof.
  intros Hk [Hr Hlt]. pose proof (pow2_le_half psz k Hk) as Hp.
  rewrite aligned_addr_pow2, sum_no_wrap by lia.
  split; [done|].
  pose proof (round_down_bounds (r + 2 ^ k + psz) (2 ^ k)). lia.
Qed.

(** The metadata slot of a handle computed in a block with room for the
    slack starts at [handle - psz], at or above the raw address. *)
Lemma slot_addr_exact r k :
  0 <= k < 8 * psz -> valid_block psz r (2 ^ k + psz) ->
  slot_addr psz (aligned_addr psz r (2 ^ k)) = aligned_addr psz r (2 ^ k) - psz
  /\ r < slot_addr psz (aligned_addr psz r (2 ^ k)).
Proof.
  intros Hk Hv. destruct (aligned_addr_exact r k Hk Hv) as [_ Hb].
  destruct Hv as [Hr Hlt]. pose proof (pow2_le_half psz k Hk).
  unfold slot_addr, SizeT.sub.
  rewrite wrap_small by (unfold SizeT.in_range; lia). lia.
Qed.

(** A request leaves the sum alone when the block it asks for fits the
    address space. *)
Lemma request_no_wrap size al :
  0 <= size -> 0 <= al -> size + al + psz < SizeT.modulus psz ->
  request psz size al = size + al + psz.
Proof. apply sum_no_wrap. Qed.

(** A request of no payload never wraps. *)
Lemma request_zero k :
  0 <= k < 8 * psz -> request psz 0 (2 ^ k) = 2 ^ k + psz.
Proof.
  intros Hk. pose proof (pow2_le_half psz k Hk).
  pose proof (psz_lt_half psz psz_pos). pose proof (modulus_double psz psz_pos).
  rewrite request_no_wrap; lia.
Qed.

(** With alignment 0 the mask of line 12 is 0. *)
Lemma mask_zero : SizeT.not psz (SizeT.sub psz 0 1) = 0.
Proof.
  pose proof (modulus_pos psz psz_pos) as Hm.
  unfold SizeT.not, SizeT.sub, SizeT.wrap.
  assert ((0 - 1) mod SizeT.modulus psz = SizeT.modulus psz - 1) as ->
    by (symmetry; apply Z.mod_unique with (q := -1); lia).
  symmetry. apply Z.mod_unique with (q := -1); unfold Z.lnot; lia.
Qed.

End Address.

(** ** Facts about the heap *)

Lemma in_live_intro (h : heap) (r n a len : Z) :
  live h !! r = Some n -> r <= a -> a + len <= r + n -> in_live h a len = true.
Proof.
  intros Hl Ha Hlen. unfold in_live. apply existsb_exists.
  exists (r, n). split.
  - apply list_elem_of_In, elem_of_map_to_list. done.
  - unfold covers; simpl. apply andb_true_intro. split; apply Z.leb_le; lia.
Qed.

Lemma store_ptr_inv psz h a v h' :
  store_ptr psz h a v = Some h' ->
  in_live h a psz = true /\ h' = Heap (live h) (<[a := v]> (cells h)) (calls h).
Proof.
  unfold store_ptr. destruct (in_live h a psz); [|done].
  intros [= <-]. done.
Qed.

Lemma load_after_store psz h a v h' :
  store_ptr psz h a v = Some h' -> load_ptr psz h' a = Some v.
Proof.
  intros Hs. apply store_ptr_inv in Hs as [Hin ->].
  unfold load_ptr, in_live in *. simpl. rewrite Hin. apply lookup_insert_eq.
Qed.

Lemma free_live h p n :
  p <> 0 -> live h !! p = Some n ->
  exists h', free h p = Some h'
    /\ calls h' = calls h ++ [Free p] /\ live h' = delete p (live h).
Proof.
  intros Hp Hl. unfold free. rewrite bool_decide_eq_false_2 by done.
  rewrite Hl. eexists. split; [reflexivity|]. done.
Qed.

Lemma calls_log_grant c r n h : calls (log c (grant r n h)) = calls h ++ [c].
Proof. unfold grant. by case_bool_decide. Qed.

Lemma live_log_grant c r n h :
  r <> 0 -> live (log c (grant r n h)) !! r = Some n.
Proof.
  intros Hr. unfold grant. rewrite bool_decide_eq_false_2 by done.
  simpl. apply lookup_insert_eq.
Qed.

(** Freeing what was just granted, null included, is defined and adds the
    one [Free] call. *)
Lemma free_granted c r n h :
  exists h', free (log c (grant r n h)) r = Some h'
    /\ calls h' = calls h ++ [c; Free r].
Proof.
  destruct (decide (r = 0)) as [->|Hr].
  - eexists. split; [reflexivity|]. simpl. by rewrite <- app_assoc.
  - destruct (free_live (log c (grant r n h)) r n Hr) as (h' & Hf & Hc & _).
    { by apply live_log_grant. }
    exists h'. split; [done|].
    by rewrite Hc, calls_log_grant, <- app_assoc.
Qed.

(** The two branches of [aligned_malloc]. *)
Lemma aligned_malloc_null P h size al :
  raw_pick P h (request (ptr_size P) size al) = 0 ->
  aligned_malloc P h size al
  = Some (0, log (Malloc (request (ptr_size P) size al) 0) h).
Proof.
  intros Hr. unfold aligned_malloc, malloc. rewrite Hr. done.
Qed.

Lemma aligned_malloc_nonnull P h size al :
  raw_pick P h (request (ptr_size P) size al) <> 0 ->
  aligned_malloc P h size al
  = let n := request (ptr_size P) size al in
    let r := raw_pick P h n in
    let a := aligned_addr (ptr_size P) r al in
    h2 ← store_ptr (ptr_size P) (log (Malloc n r) (grant r n h))
                   (slot_addr (ptr_size P) a) r;
    Some (a, h2).
Proof.
  intros Hr. unfold aligned_malloc, malloc.
  rewrite bool_decide_eq_false_2 by done. done.
Qed.

(** A non-null handle comes from the second branch: [malloc] answered a
    block and the store of line 15 went through. *)
Lemma aligned_malloc_inv P h size al p h' :
  aligned_malloc P h size al = Some (p, h') -> p <> 0 ->
  let n := request (ptr_size P) size al in
  let r := raw_pick P h n in
  r <> 0
  /\ p = aligned_addr (ptr_size P) r al
  /\ store_ptr (ptr_size P) (log (Malloc n r) (grant r n h))
       (slot_addr (ptr_size P) p) r = Some h'.
Proof.
  intros Ham Hp n r.
  destruct (decide (r = 0)) as [Hr0|Hr0].
  { rewrite aligned_malloc_null in Ham by done. by injection Ham as <- _. }
  rewrite aligned_malloc_nonnull in Ham by done. cbv zeta in Ham. fold n r in Ham.
  destruct (store_ptr _ _ _ _) as [h2|] eqn:Hst; [|done].
  by injection Ham as <- <-.
Qed.

(** Releasing a handle whose slot was just written with the base of a live
    block frees that block. *)
Lemma aligned_free_stored psz h1 p r n h2 :
  store_ptr psz h1 (slot_addr psz p) r = Some h2 ->
  p <> 0 -> r <> 0 -> live h1 !! r = Some n ->
  exists h3, aligned_free psz h2 p = Some h3
    /\ calls h3 = calls h2 ++ [Free r]
    /\ live h3 = delete r (live h2).
Proof.
  intros Hst Hp Hr Hlive.
  pose proof (load_after_store _ _ _ _ _ Hst) as Hld.
  apply store_ptr_inv in Hst as [_ Hh2].
  unfold aligned_free. rewrite bool_decide_eq_false_2 by done.
  rewrite Hld. simpl. apply (free_live h2 r n Hr). by rewrite Hh2.
Qed.

(** When the allocator grants a block of the full, unwrapped length the call
    is defined: the store of line 15 lands inside the block. *)
Lemma aligned_malloc_defined P h size k :
  let psz := ptr_size P in
  let r := raw_pick P h (request psz size (2 ^ k)) in
  0 < psz -> 0 <= k < 8 * psz -> 0 <= size ->
  valid_block psz r (size + 2 ^ k + psz) ->
  exists h', aligned_malloc P h size (2 ^ k) = Some (aligned_addr psz r (2 ^ k), h').
Proof.
  intros psz r Hpsz Hk Hsize Hv.
  assert (valid_block psz r (2 ^ k + psz)) as Hv0
    by (destruct Hv; split; lia).
  destruct (aligned_addr_exact psz Hpsz r k Hk Hv0) as [_ Hb].
  destruct (slot_addr_exact psz Hpsz r k Hk Hv0) as [Hs Hs'].
  pose proof (pow2_le_half psz k Hk) as Hp.
  assert (request psz size (2 ^ k) = size + 2 ^ k + psz) as Hreq
    by (destruct Hv; apply request_no_wrap; lia).
  rewrite aligned_malloc_nonnull by (destruct Hv; fold psz r; lia).
  cbv zeta. fold psz r. unfold store_ptr.
  erewrite in_live_intro; [eexists; reflexivity|..].
  - apply live_log_grant. destruct Hv; lia.
  - lia.
  - rewrite Hreq. lia.
Qed.


(** ** Facts about the driver *)

Lemma append_cons a s t : String a s +:+ t = String a (s +:+ t).
Proof. reflexivity. Qed.

Lemma append_assoc s t u : (s +:+ t) +:+ u = s +:+ t +:+ u.
Proof.
  induction s as [|a s IH]; [done|].
  rewrite !append_cons. by rewrite IH.
Qed.

Lemma count_lines_app s t :
  count_lines (s +:+ t) = (count_lines s + count_lines t)%nat.
Proof.
  induction s as [|a s IH]; [done|].
  rewrite append_cons. simpl. rewrite IH. lia.
Qed.

(** A decimal digit is not a line end. *)
Lemma count_lines_digit d s :
  count_lines (String (pretty_N_char d) s) = count_lines s.
Proof. unfold pretty_N_char. by repeat case_match. Qed.

Lemma count_lines_pretty_N_go x s :
  count_lines (pretty_N_go x s) = count_lines s.
Proof.
  revert s. induction (N.lt_wf_0 x) as [x _ IH]; intros s.
  destruct (decide (x = 0)%N) as [->|Hx]; [by rewrite pretty_N_go_0|].
  rewrite pretty_N_go_step by lia.
  rewrite IH by (apply N.div_lt; lia). apply count_lines_digit.
Qed.

Lemma count_lines_pretty_N (x : N) : count_lines (pretty x) = O.
Proof.
  unfold pretty, pretty_N. case_decide; [done|].
  apply count_lines_pretty_N_go.
Qed.

(** A printed count holds no line end. *)
Lemma count_lines_pretty_Z (z : Z) : count_lines (pretty z) = O.
Proof.
  destruct z as [|p|p]; [done|apply (count_lines_pretty_N (Npos p))|].
  unfold pretty, pretty_Z. rewrite count_lines_app.
  change (count_lines "-") with O.
  apply (count_lines_pretty_N (Npos p)).
Qed.

Lemma count_lines_timing_line label us :
  count_lines label = O -> count_lines (timing_line label us) = 1%nat.
Proof.
  intros Hl. unfold timing_line.
  rewrite !count_lines_app, Hl, count_lines_pretty_Z. reflexivity.
Qed.

Lemma count_lines_row P c : count_lines (row_report P c) = 2%nat.
Proof.
  unfold row_report.
  rewrite count_lines_app, !count_lines_timing_line by reflexivity. done.
Qed.

Lemma count_lines_report P c : count_lines (report P c) = 10%nat.
Proof.
  unfold report. rewrite !count_lines_app, !count_lines_row. done.
Qed.

Lemma requests_app cs ds : requests (cs ++ ds) = requests cs ++ requests ds.
Proof. apply omap_app. Qed.

Lemma ref_round_spec P size al h :
  exists h', ref_round P size al h = Some h'
    /\ requests (calls h') = requests (calls h) ++ [RefReq al size].
Proof.
  unfold ref_round, std_aligned_alloc.
  destruct (free_granted (AlignedAlloc al size (ref_pick P h al size))
              (ref_pick P h al size) size h) as (h' & Hf & Hc).
  exists h'. split; [done|]. by rewrite Hc, requests_app.
Qed.

(** One allocate-and-release of lines 49 and 50 is defined, whether [malloc]
    answers null or a block, and asks [malloc] for the unwrapped length. *)
Lemma own_round_spec P size k h :
  0 < ptr_size P -> 0 <= k < 8 * ptr_size P -> 0 <= size ->
  size + 2 ^ k + ptr_size P < SizeT.modulus (ptr_size P) ->
  raw_sound P ->
  exists h', own_round P size (2 ^ k) h = Some h'
    /\ requests (calls h')
       = requests (calls h) ++ [RawReq (size + 2 ^ k + ptr_size P)].
Proof.
  intros Hpsz Hk Hsize Hfit Hsound.
  pose proof (pow2_le_half _ k Hk) as Hp.
  assert (request (ptr_size P) size (2 ^ k) = size + 2 ^ k + ptr_size P) as Hreq
    by (apply request_no_wrap; lia).
  unfold own_round.
  destruct (Hsound h (request (ptr_size P) size (2 ^ k))) as [Hr|Hv].
  - rewrite aligned_malloc_null by done. simpl.
    eexists. split; [reflexivity|]. simpl.
    by rewrite requests_app, Hreq.
  - rewrite Hreq in Hv at 2.
    destruct (aligned_malloc_defined P h size k Hpsz Hk Hsize Hv) as [h1 Hh1].
    assert (valid_block (ptr_size P)
              (raw_pick P h (request (ptr_size P) size (2 ^ k)))
              (2 ^ k + ptr_size P)) as Hv0
      by (destruct Hv; split; lia).
    destruct (aligned_addr_exact _ Hpsz _ k Hk Hv0) as [_ Hb].
    assert (aligned_addr (ptr_size P)
              (raw_pick P h (request (ptr_size P) size (2 ^ k))) (2 ^ k) <> 0) as Hp0
      by (destruct Hv0; lia).
    destruct (aligned_malloc_inv P h size (2 ^ k) _ h1 Hh1 Hp0) as (Hr & _ & Hst).
    destruct (aligned_free_stored _ _ _ _ _ _ Hst Hp0 Hr
                (live_log_grant _ _ _ h Hr)) as (h2 & Hf & Hc2 & _).
    apply store_ptr_inv in Hst as [_ Hh1'].
    rewrite Hh1. simpl. exists h2. split; [done|].
    rewrite Hc2, Hh1'. cbn [calls]. rewrite calls_log_grant.
    rewrite !requests_app, Hreq. simpl. by rewrite app_nil_r.
Qed.

Lemma loop_spec (body : heap -> option heap) (q : req) :
  (forall h, exists h', body h = Some h'
     /\ requests (calls h') = requests (calls h) ++ [q]) ->
  forall n h, exists h', loop n body h = Some h'
     /\ requests (calls h') = requests (calls h) ++ replicate n q.
Proof.
  intros Hbody n. induction n as [|n IH]; intros h.
  - exists h. split; [done|]. by rewrite app_nil_r.
  - destruct (Hbody h) as (h1 & Hb & Hc1). destruct (IH h1) as (h2 & Hl & Hc2).
    exists h2. simpl. rewrite Hb. simpl. split; [done|].
    rewrite Hc2, Hc1, <- app_assoc. done.
Qed.

(** One row of the matrix: four clock readings, two report lines, and the
    requests of the row in order. *)
Lemma benchmark_spec P w size al k iterations :
  0 < ptr_size P -> 0 <= k < 8 * ptr_size P -> al = 2 ^ k -> 0 <= size ->
  size + al + ptr_size P < SizeT.modulus (ptr_size P) ->
  raw_sound P ->
  exists w', benchmark P w size al iterations = Some w'
    /\ out w' = out w +:+ row_report P (reads w)
    /\ reads w' = (4 + reads w)%nat
    /\ requests (calls (mem w'))
       = requests (calls (mem w))
         ++ config_requests (ptr_size P) (size, al, iterations).
Proof.
  intros Hpsz Hk -> Hsize Hfit Hsound.
  destruct (loop_spec _ _ (ref_round_spec P size (2 ^ k))
              (Z.to_nat iterations) (mem w)) as (h1 & Hl1 & Hc1).
  destruct (loop_spec _ _
              (fun h => own_round_spec P size k h Hpsz Hk Hsize Hfit Hsound)
              (Z.to_nat iterations) h1) as (h2 & Hl2 & Hc2).
  unfold benchmark, now, on_mem. simpl. rewrite Hl1. simpl. rewrite Hl2. simpl.
  eexists. split; [reflexivity|]. simpl.
  split_and!; [|done|].
  - unfold row_report, timing_line. by rewrite !append_assoc.
  - by rewrite Hc2, Hc1, <- app_assoc.
Qed.

Lemma modulus_ge_32 psz : 4 <= psz -> 2 ^ 32 <= SizeT.modulus psz.
Proof. intros H. unfold SizeT.modulus. apply Z.pow_le_mono_r; lia. Qed.

Lemma to_size_t_small psz z :
  4 <= psz -> 0 <= z < 2 ^ 32 -> to_size_t psz z = z.
Proof.
  intros Hpsz Hz. pose proof (modulus_ge_32 psz Hpsz).
  apply wrap_small. unfold SizeT.in_range. lia.
Qed.

Lemma fake_platform_sound : raw_sound fake_platform.
Proof.
  intros h n. simpl. case_bool_decide; [right|by left].
  unfold valid_block, SizeT.modulus. simpl. lia.
Qed.

(** The value of line 12 is a [size_t] value. *)
Lemma aligned_addr_in_range psz r al :
  0 < psz -> SizeT.in_range psz (aligned_addr psz r al).
Proof.
  intros Hpsz. unfold aligned_addr, SizeT.and.
  pose proof (wrap_range psz Hpsz (SizeT.add psz r al + psz)) as Hx.
  fold (SizeT.add psz (SizeT.add psz r al) psz) in Hx.
  set (x := SizeT.add psz (SizeT.add psz r al) psz) in *.
  set (m := SizeT.not psz (SizeT.sub psz al 1)).
  destruct Hx as [Hx0 Hx1]. split; [apply Z.land_nonneg; by left|].
  pose proof (Z.sub_land_same_l x (Z.lnot m)) as Hs.
  rewrite Z.lnot_involutive in Hs.
  assert (0 <= Z.land x (Z.lnot m)) by (apply Z.land_nonneg; by left).
  lia.
Qed.

(** A load that succeeds read the cell. *)
Lemma load_ptr_cell psz h a v : load_ptr psz h a = Some v -> cells h !! a = Some v.
Proof. unfold load_ptr. by destruct (in_live h a psz). Qed.

(** * The properties *)

(** C1 (alignment invariant). For every size and every power-of-two
    alignment [2^k] that a [size_t] can hold, when [malloc] answers a
    non-null address the value line 12 computes is an exact multiple of the
    alignment, whatever handle [aligned_malloc] returns is that value, and
    the call does return it when the block granted has the full, unwrapped
    length. *)
Theorem aligned_malloc_alignment P h size k :
  0 < ptr_size P -> 0 <= k < 8 * ptr_size P ->
  raw_pick P h (request (ptr_size P) size (2 ^ k)) <> 0 ->
  let r := raw_pick P h (request (ptr_size P) size (2 ^ k)) in
  aligned_addr (ptr_size P) r (2 ^ k) mod 2 ^ k = 0
  /\ (forall p h', aligned_malloc P h size (2 ^ k) = Some (p, h') ->
        p = aligned_addr (ptr_size P) r (2 ^ k) /\ p mod 2 ^ k = 0)
  /\ (0 <= size -> valid_block (ptr_size P) r (size + 2 ^ k + ptr_size P) ->
      exists h', aligned_malloc P h size (2 ^ k)
                 = Some (aligned_addr (ptr_size P) r (2 ^ k), h')).
Proof.
  intros Hpsz Hk Hr r. split_and!.
  - by apply aligned_addr_mod.
  - intros p h'. rewrite aligned_malloc_nonnull by done. cbv zeta. fold r.
    destruct (store_ptr _ _ _ _) as [h2|]; [|done].
    intros [= <- <-]. split; [done|]. by apply aligned_addr_mod.
  - intros Hsize Hv. by apply aligned_malloc_defined.
Qed.

Lemma aligned_malloc_alignment_witness :
  aligned_addr 8 4104 (2 ^ 4) mod 2 ^ 4 = 0
  /\ exists h', aligned_malloc fake_platform empty_heap 64 (2 ^ 4)
                = Some (aligned_addr 8 4104 (2 ^ 4), h').
Proof.
  destruct (aligned_malloc_alignment fake_platform empty_heap 64 4)
    as (Hmod & _ & Hdef); [simpl; lia..|].
  split; [exact Hmod|]. apply Hdef; [lia|].
  unfold valid_block, SizeT.modulus. simpl. lia.
Defined.

(** C2 (recoverability and round trip). Whenever [aligned_malloc] returns a
    non-null handle [p], the pointer stored at address [p - psz], computed in
    pointer-width arithmetic, is the address [malloc] answered (for a handle
    of at least [psz] that address is the integer [p - psz] itself), and
    [aligned_free p] hands exactly that address to [free]: the raw block
    leaves the live set and [Free r] is the one call appended. *)
Theorem aligned_free_releases_raw_block P h size al p h' :
  0 < ptr_size P ->
  aligned_malloc P h size al = Some (p, h') -> p <> 0 ->
  let n := request (ptr_size P) size al in
  let r := raw_pick P h n in
  calls h' = calls h ++ [Malloc n r]
  /\ live h' !! r = Some n
  /\ load_ptr (ptr_size P) h' (slot_addr (ptr_size P) p) = Some r
  /\ load_ptr (ptr_size P) h' ((p - ptr_size P) mod 2 ^ (8 * ptr_size P)) = Some r
  /\ cells h' !! ((p - ptr_size P) mod 2 ^ (8 * ptr_size P)) = Some r
  /\ (ptr_size P <= p ->
      load_ptr (ptr_size P) h' (p - ptr_size P) = Some r
      /\ cells h' !! (p - ptr_size P) = Some r)
  /\ exists h'', aligned_free (ptr_size P) h' p = Some h''
       /\ calls h'' = calls h' ++ [Free r]
       /\ live h'' = delete r (live h').
Proof.
  intros Hpsz Ham Hp n r.
  destruct (aligned_malloc_inv P h size al p h' Ham Hp) as (Hr & Hpa & Hst).
  fold n r in Hr, Hpa, Hst.
  assert (live (log (Malloc n r) (grant r n h)) !! r = Some n) as Hlive
    by (by apply live_log_grant).
  destruct (aligned_free_stored _ _ _ _ n _ Hst Hp Hr Hlive) as (h3 & Hf & Hc & Hl).
  pose proof (load_after_store _ _ _ _ _ Hst) as Hld.
  assert (load_ptr (ptr_size P) h' ((p - ptr_size P) mod 2 ^ (8 * ptr_size P))
          = Some r) as Hld' by exact Hld.
  assert (ptr_size P <= p ->
          (p - ptr_size P) mod 2 ^ (8 * ptr_size P) = p - ptr_size P) as Hplain.
  { intros Hge. apply Z.mod_small.
    pose proof (aligned_addr_in_range (ptr_size P) r al Hpsz) as Hrange.
    rewrite <- Hpa in Hrange. unfold SizeT.in_range, SizeT.modulus in Hrange.
    lia. }
  apply store_ptr_inv in Hst as [_ Hh'].
  assert (calls h' = calls h ++ [Malloc n r]) as Hcalls
    by (rewrite Hh'; apply calls_log_grant).
  assert (live h' !! r = Some n) as Hlive' by (by rewrite Hh').
  pose proof (load_ptr_cell _ _ _ _ Hld') as Hcell.
  repeat (split; [done|]). split; [|by exists h3].
  intros Hge. by rewrite <- (Hplain Hge).
Qed.

Lemma aligned_free_releases_raw_block_witness :
  exists h' h'',
    aligned_malloc fake_platform empty_heap 64 16 = Some (4128, h')
    /\ load_ptr 8 h' 4120 = Some 4104
    /\ cells h' !! 4120 = Some 4104
    /\ load_ptr 8 h' 4128 = None
    /\ aligned_free 8 h' 4128 = Some h''
    /\ calls h'' = [Malloc 88 4104; Free 4104].
Proof.
  pose (h1 := Heap (<[4104 := 88]> ∅) (<[4120 := 4104]> ∅) [Malloc 88 4104]).
  assert (aligned_malloc fake_platform empty_heap 64 16 = Some (4128, h1)) as Ham
    by (vm_compute; reflexivity).
  destruct (aligned_free_releases_raw_block fake_platform empty_heap 64 16 4128 h1)
    as (Hc & _ & _ & _ & _ & Hplain & h'' & Hf & Hc' & _);
    [simpl; lia | exact Ham | lia |].
  destruct Hplain as [Hl Hcell]; [simpl; lia|].
  exists h1, h''. split_and!; [done | exact Hl | exact Hcell | | done |].
  - vm_compute. reflexivity.
  - rewrite Hc', Hc. reflexivity.
Defined.

(** C3 (exhaustion). When [malloc] answers null, [aligned_malloc] returns
    null: the call is defined, no block is granted and no cell is written;
    the one [malloc] call is all that happened. *)
Theorem aligned_malloc_exhausted P h size al :
  raw_pick P h (request (ptr_size P) size al) = 0 ->
  exists h', aligned_malloc P h size al = Some (0, h')
    /\ cells h' = cells h /\ live h' = live h
    /\ calls h' = calls h ++ [Malloc (request (ptr_size P) size al) 0].
Proof.
  intros Hr. rewrite aligned_malloc_null by done. eexists. split; [reflexivity|].
  done.
Qed.

Lemma aligned_malloc_exhausted_witness :
  exists h', aligned_malloc exhausted_platform empty_heap 64 16 = Some (0, h')
    /\ cells h' = ∅ /\ live h' = ∅ /\ calls h' = [Malloc 88 0].
Proof.
  apply (aligned_malloc_exhausted exhausted_platform empty_heap 64 16).
  reflexivity.
Defined.



(** C5 (non-overlap and bounds). When [malloc] grants, at the address [r]
    it answers, a block of the full [size + alignment + psz] bytes,
    [aligned_malloc] returns a handle [p] such that: the request of line 8 is
    that very length and the block is live with it; the raw address is
    stored in the [psz] bytes at [p - psz]; no byte belongs both to those
    metadata bytes and to the [size] payload bytes at [p]; and the metadata
    bytes and the payload bytes all lie inside the raw block. *)
Theorem payload_within_raw_block P h size k :
  0 < ptr_size P -> 0 <= k < 8 * ptr_size P -> 0 <= size ->
  valid_block (ptr_size P)
    (raw_pick P h (request (ptr_size P) size (2 ^ k)))
    (size + 2 ^ k + ptr_size P) ->
  let psz := ptr_size P in
  let n := request psz size (2 ^ k) in
  let r := raw_pick P h n in
  exists p h', aligned_malloc P h size (2 ^ k) = Some (p, h')
    /\ n = size + 2 ^ k + psz
    /\ live h' !! r = Some n
    /\ cells h' !! (p - psz) = Some r
    /\ load_ptr psz h' (p - psz) = Some r
    /\ (forall x, ~ (bytes_at (p - psz) psz x /\ bytes_at p size x))
    /\ (forall x, bytes_at (p - psz) psz x -> bytes_at r n x)
    /\ (forall x, bytes_at p size x -> bytes_at r n x)
    /\ slot_addr psz p = p - psz
    /\ r <= p - psz
    /\ p + size <= r + n.
Proof.
  intros Hpsz Hk Hsize Hv psz n r.
  assert (0 < r /\ r + (size + 2 ^ k + psz) < SizeT.modulus psz) as [Hr0 Hend]
    by exact Hv.
  assert (valid_block psz r (2 ^ k + psz)) as Hv0 by (split; lia).
  destruct (aligned_addr_exact psz Hpsz r k Hk Hv0) as [_ Hb].
  destruct (slot_addr_exact psz Hpsz r k Hk Hv0) as [Hs Hs'].
  pose proof (pow2_le_half psz k Hk) as Hp.
  assert (n = size + 2 ^ k + psz) as Hn by (apply request_no_wrap; lia).
  destruct (aligned_malloc_defined P h size k Hpsz Hk Hsize Hv) as [h' Hh'].
  fold psz n r in Hh'. set (p := aligned_addr psz r (2 ^ k)) in *.
  assert (p <> 0) as Hp0 by lia.
  destruct (aligned_malloc_inv P h size (2 ^ k) p h' Hh' Hp0) as (Hr & _ & Hst).
  fold psz n r in Hr, Hst. rewrite Hs in Hst.
  pose proof (load_after_store _ _ _ _ _ Hst) as Hld.
  pose proof (load_ptr_cell _ _ _ _ Hld) as Hcell.
  apply store_ptr_inv in Hst as [_ Hh1].
  assert (live h' !! r = Some n) as Hlive
    by (rewrite Hh1; by apply live_log_grant).
  exists p, h'. unfold bytes_at.
  repeat (split; [done|]).
  repeat (split; [intros x; lia|]). split; [done|]. lia.
Qed.

Lemma payload_within_raw_block_witness :
  exists h',
    aligned_malloc fake_platform empty_heap 64 (2 ^ 4) = Some (4128, h')
    /\ request 8 64 (2 ^ 4) = 88
    /\ live h' !! 4104 = Some 88
    /\ cells h' !! 4120 = Some 4104
    /\ (forall x, ~ (bytes_at 4120 8 x /\ bytes_at 4128 64 x))
    /\ (forall x, bytes_at 4120 8 x -> bytes_at 4104 88 x)
    /\ (forall x, bytes_at 4128 64 x -> bytes_at 4104 88 x).
Proof.
  destruct (payload_within_raw_block fake_platform empty_heap 64 4)
    as (p & h' & Ham & Hn & Hl & Hc & _ & Hd & Hm & Hpay & _);
    [simpl; lia | simpl; lia | lia | vm_compute; split; reflexivity |].
  assert (p = 4128) as -> by (vm_compute in Ham; congruence).
  exists h'. split_and!; [exact Ham | by vm_compute | exact Hl | exact Hc
                          | exact Hd | exact Hm | exact Hpay].
Defined.

(** C6 (null safety). [aligned_free] of the null handle is defined and
    leaves the heap as it was: no cell is read, no block is released and no
    call reaches the allocator. *)
Theorem aligned_free_null psz h : aligned_free psz h 0 = Some h.
Proof. reflexivity. Qed.

(** C7 (zero size). For every power-of-two alignment, when [malloc] grants
    the block [aligned_malloc(0, alignment)] asks for, the call returns a
    handle that is not null and is a multiple of the alignment. *)
Theorem aligned_malloc_zero_size P h k :
  0 < ptr_size P -> 0 <= k < 8 * ptr_size P ->
  valid_block (ptr_size P)
    (raw_pick P h (request (ptr_size P) 0 (2 ^ k)))
    (request (ptr_size P) 0 (2 ^ k)) ->
  exists p h', aligned_malloc P h 0 (2 ^ k) = Some (p, h')
    /\ p <> 0 /\ p mod 2 ^ k = 0.
Proof.
  intros Hpsz Hk Hv.
  assert (request (ptr_size P) 0 (2 ^ k) = 0 + 2 ^ k + ptr_size P) as Hreq
    by (rewrite request_zero by done; lia).
  destruct (aligned_malloc_defined P h 0 k Hpsz Hk) as [h' Hh'];
    [lia | by rewrite <- Hreq |].
  eexists _, h'. split; [exact Hh'|].
  split; [|by apply aligned_addr_mod].
  rewrite Hreq in Hv at 2.
  assert (valid_block (ptr_size P)
            (raw_pick P h (request (ptr_size P) 0 (2 ^ k))) (2 ^ k + ptr_size P)) as Hv0
    by (destruct Hv; split; lia).
  destruct (aligned_addr_exact _ Hpsz _ k Hk Hv0) as [_ Hb].
  destruct Hv0. lia.
Qed.

Lemma aligned_malloc_zero_size_witness :
  exists p h', aligned_malloc fake_platform empty_heap 0 (2 ^ 4) = Some (p, h')
    /\ p <> 0 /\ p mod 2 ^ 4 = 0.
Proof.
  apply (aligned_malloc_zero_size fake_platform empty_heap 4); [simpl; lia..|].
  vm_compute. split; reflexivity.
Defined.

(** C8 (benchmark matrix). On a platform with pointers of at least 32 bits
    and a [malloc] that answers null or a block in the address space, [main]
    is defined and returns 0; it appends to standard output the report of
    five rows, ten lines, each row the reference facility's line then the
    custom primitive's; it reads the clock twenty times; and the allocation
    requests it makes are those of the five rows of the matrix, in order. *)
Theorem main_runs_matrix P w :
  4 <= ptr_size P -> raw_sound P ->
  exists w', main P w = Some (0, w')
    /\ out w' = out w +:+ report P (reads w)
    /\ count_lines (report P (reads w)) = 10%nat
    /\ reads w' = (20 + reads w)%nat
    /\ requests (calls (mem w'))
       = requests (calls (mem w))
         ++ concat (map (config_requests (ptr_size P)) configs).
Proof.
  intros Hpsz Hsound.
  pose proof (modulus_ge_32 _ Hpsz) as Hm.
  assert (0 < ptr_size P) as Hpos by lia.
  pose proof (psz_lt_half _ Hpos) as Hhalf.
  pose proof (modulus_double _ Hpos) as Hdbl.
  unfold main.
  rewrite !to_size_t_small by (done || lia).
  destruct (benchmark_spec P w 64 16 4 100000) as (w1 & -> & Ho1 & Hr1 & Hc1);
    [lia | lia | done | lia | lia | done |].
  destruct (benchmark_spec P w1 128 32 5 100000) as (w2 & Hb2 & Ho2 & Hr2 & Hc2);
    [lia | lia | done | lia | lia | done |].
  destruct (benchmark_spec P w2 256 64 6 100000) as (w3 & Hb3 & Ho3 & Hr3 & Hc3);
    [lia | lia | done | lia | lia | done |].
  destruct (benchmark_spec P w3 1024 64 6 100000) as (w4 & Hb4 & Ho4 & Hr4 & Hc4);
    [lia | lia | done | lia | lia | done |].
  destruct (benchmark_spec P w4 (1024 * 1024) 64 6 1000)
    as (w5 & Hb5 & Ho5 & Hr5 & Hc5);
    [lia | lia | done | lia | lia | done |].
  exists w5. cbn [mbind option_bind]. rewrite Hb2. cbn [mbind option_bind].
  rewrite Hb3. cbn [mbind option_bind]. rewrite Hb4. cbn [mbind option_bind].
  rewrite Hb5. cbn [mbind option_bind].
  split_and!.
  - done.
  - rewrite Ho5, Ho4, Ho3, Ho2, Ho1, Hr4, Hr3, Hr2, Hr1.
    unfold report. rewrite !append_assoc.
    replace (4 + (4 + reads w))%nat with (8 + reads w)%nat by lia.
    replace (4 + (8 + reads w))%nat with (12 + reads w)%nat by lia.
    replace (4 + (12 + reads w))%nat with (16 + reads w)%nat by lia.
    done.
  - apply count_lines_report.
  - lia.
  - rewrite Hc5, Hc4, Hc3, Hc2, Hc1. rewrite <- !app_assoc.
    unfold configs. cbn [map concat]. rewrite app_nil_r.
    change (1024 * 1024) with 1048576. reflexivity.
Qed.

Lemma main_runs_matrix_witness :
  exists w', main fake_platform boot = Some (0, w')
    /\ out w' = out boot +:+ report fake_platform (reads boot)
    /\ count_lines (report fake_platform (reads boot)) = 10%nat
    /\ reads w' = (20 + reads boot)%nat
    /\ requests (calls (mem w'))
       = requests (calls (mem boot))
         ++ concat (map (config_requests (ptr_size fake_platform)) configs).
Proof.
  apply (main_runs_matrix fake_platform boot).
  - change (4 <= 8). lia.
  - apply fake_platform_sound.
Defined.

(** C9 (wrapped request). On a 64-bit platform the request for size
    [2^64 - 1] and alignment 16 wraps to 23 bytes, fewer than the size and
    fewer than the sum the over-allocation argument relies on; in a block of
    that length at 4104 the payload ends far beyond the block, and the store
    of line 15 already falls outside it. *)
Theorem request_wraps :
  SizeT.in_range 8 (2 ^ 64 - 1)
  /\ request 8 (2 ^ 64 - 1) 16 = 23
  /\ request 8 (2 ^ 64 - 1) 16 < 2 ^ 64 - 1
  /\ request 8 (2 ^ 64 - 1) 16 <> (2 ^ 64 - 1) + 16 + 8
  /\ 4104 + request 8 (2 ^ 64 - 1) 16 < aligned_addr 8 4104 16 + (2 ^ 64 - 1)
  /\ aligned_malloc fake_platform empty_heap (2 ^ 64 - 1) 16 = None.
Proof.
  split; [by vm_compute|].
  assert (request 8 (2 ^ 64 - 1) 16 = 23) as -> by (by vm_compute).
  assert (aligned_addr 8 4104 16 = 4128) as -> by (by vm_compute).
  split_and!; [done | lia | lia | lia | by vm_compute].
Qed.

(** C10 (alignment 0). With alignment 0 the mask of line 12 is 0, so the
    computed address is 0 whatever the raw address is, and the slot line 15
    writes is the last [psz] bytes of the address space, which no block an
    allocator hands out contains. *)
Theorem aligned_addr_alignment_zero psz r :
  0 < psz ->
  SizeT.not psz (SizeT.sub psz 0 1) = 0
  /\ aligned_addr psz r 0 = 0
  /\ slot_addr psz (aligned_addr psz r 0) = SizeT.modulus psz - psz
  /\ forall b n, valid_block psz b n ->
       covers (slot_addr psz (aligned_addr psz r 0)) psz (b, n) = false.
Proof.
  intros Hpsz.
  pose proof (mask_zero psz Hpsz) as Hm.
  assert (aligned_addr psz r 0 = 0) as Ha
    by (unfold aligned_addr, SizeT.and; rewrite Hm; apply Z.land_0_r).
  pose proof (psz_lt_half psz Hpsz). pose proof (modulus_double psz Hpsz).
  assert (slot_addr psz 0 = SizeT.modulus psz - psz) as Hs.
  { unfold slot_addr, SizeT.sub, SizeT.wrap. symmetry.
    apply Z.mod_unique with (q := -1); lia. }
  rewrite Ha, Hs. split_and!; [done..|].
  intros b n [Hb Hn].
  unfold covers; simpl. apply andb_false_intro2, Z.leb_gt. lia.
Qed.

Lemma aligned_addr_alignment_zero_witness :
  SizeT.not 8 (SizeT.sub 8 0 1) = 0
  /\ aligned_addr 8 4104 0 = 0
  /\ slot_addr 8 (aligned_addr 8 4104 0) = SizeT.modulus 8 - 8
  /\ covers (slot_addr 8 (aligned_addr 8 4104 0)) 8 (4104, 72) = false.
Proof.
  destruct (aligned_addr_alignment_zero 8 4104) as (Hm & Ha & Hs & Hc); [lia|].
  split_and!; [done..|].
  apply Hc. unfold valid_block, SizeT.modulus. simpl. lia.
Defined.

(** * Further properties of the code *)

(** ** The mask for an arbitrary alignment *)

Lemma land_upper_bound x m : 0 <= x -> 0 <= m -> 0 <= Z.land x m <= m.
Proof.
  intros Hx Hm. split; [apply Z.land_nonneg; by left|].
  pose proof (Z.sub_land_same_l m x) as Hs.
  assert (0 <= Z.land m (Z.lnot x)) by (apply Z.land_nonneg; by left).
  rewrite (Z.land_comm x m). lia.
Qed.

(** And-ing an in-range value with the complement of [m] subtracts the bits
    it shares with [m]. *)
Lemma and_not_split psz x m :
  0 < psz -> SizeT.in_range psz x ->
  SizeT.and x (SizeT.not psz m) = x - Z.land x m.
Proof.
  intros Hpsz Hx. unfold SizeT.and, SizeT.not, SizeT.wrap, SizeT.modulus.
  rewrite <- Z.land_ones by lia.
  rewrite (Z.land_comm (Z.lnot _)), Z.land_assoc.
  rewrite (Z.land_ones x) by lia.
  fold (SizeT.modulus psz). fold (SizeT.wrap psz x). rewrite wrap_small by done.
  symmetry. apply Z.sub_land_same_l.
Qed.

Lemma aligned_addr_any psz r al :
  0 < psz -> 1 <= al < SizeT.modulus psz ->
  aligned_addr psz r al
  = SizeT.add psz (SizeT.add psz r al) psz
    - Z.land (SizeT.add psz (SizeT.add psz r al) psz) (al - 1).
Proof.
  intros Hpsz Hal. unfold aligned_addr, SizeT.sub.
  rewrite (wrap_small psz (al - 1)) by (unfold SizeT.in_range; lia).
  apply and_not_split; [done|]. by apply wrap_range.
Qed.

(** The address of line 12 lies less than [alignment] below the wrapped sum. *)
Lemma aligned_addr_bounds_any psz r al :
  0 < psz -> 1 <= al < SizeT.modulus psz ->
  SizeT.add psz (SizeT.add psz r al) psz - al < aligned_addr psz r al
  /\ aligned_addr psz r al <= SizeT.add psz (SizeT.add psz r al) psz.
Proof.
  intros Hpsz Hal.
  pose proof (wrap_range psz Hpsz (SizeT.add psz r al + psz)) as Hx.
  fold (SizeT.add psz (SizeT.add psz r al) psz) in Hx.
  destruct (land_upper_bound (SizeT.add psz (SizeT.add psz r al) psz) (al - 1))
    as [Hlo Hhi]; [unfold SizeT.in_range in Hx; lia | lia |].
  rewrite aligned_addr_any by done. lia.
Qed.

(** No bit of [alignment - 1] survives the mask. *)
Lemma aligned_addr_land_mask psz r al :
  0 < psz -> 1 <= al < SizeT.modulus psz ->
  Z.land (aligned_addr psz r al) (al - 1) = 0.
Proof.
  intros Hpsz Hal.
  rewrite aligned_addr_any, Z.sub_land_same_l by done.
  rewrite <- Z.land_assoc, (Z.land_comm (Z.lnot _)), Z.land_lnot_diag.
  apply Z.land_0_r.
Qed.

(** X1. For every alignment from 1 up, power of two or not, the address of
    line 12 has none of the bits of [alignment - 1] set, and it lies less
    than [alignment] below the wrapped sum it is computed from. *)
Theorem aligned_addr_clears_mask psz r al :
  0 < psz -> 1 <= al < SizeT.modulus psz ->
  Z.land (aligned_addr psz r al) (al - 1) = 0
  /\ SizeT.add psz (SizeT.add psz r al) psz - al < aligned_addr psz r al
  /\ aligned_addr psz r al <= SizeT.add psz (SizeT.add psz r al) psz.
Proof.
  intros Hpsz Hal. split.
  - by apply aligned_addr_land_mask.
  - by apply aligned_addr_bounds_any.
Qed.

Lemma aligned_addr_clears_mask_witness :
  Z.land (aligned_addr 8 4104 24) (24 - 1) = 0
  /\ SizeT.add 8 (SizeT.add 8 4104 24) 8 - 24 < aligned_addr 8 4104 24
  /\ aligned_addr 8 4104 24 <= SizeT.add 8 (SizeT.add 8 4104 24) 8.
Proof.
  apply (aligned_addr_clears_mask 8 4104 24); [lia|].
  unfold SizeT.modulus. simpl. lia.
Defined.

(** ** The call for an arbitrary alignment *)

(** With a block of the full, unwrapped length the call is defined for every
    alignment from 1 up, and the handle leaves room for the slot below it and
    for the payload above it. *)
Lemma aligned_malloc_safe P h size al :
  let psz := ptr_size P in
  let r := raw_pick P h (request psz size al) in
  0 < psz -> 1 <= al -> 0 <= size ->
  valid_block psz r (size + al + psz) ->
  request psz size al = size + al + psz
  /\ r + psz < aligned_addr psz r al <= r + al + psz
  /\ slot_addr psz (aligned_addr psz r al) = aligned_addr psz r al - psz
  /\ exists h', aligned_malloc P h size al = Some (aligned_addr psz r al, h')
       /\ h' = Heap (<[r := size + al + psz]> (live h))
                    (<[aligned_addr psz r al - psz := r]> (cells h))
                    (calls h ++ [Malloc (size + al + psz) r]).
Proof.
  intros psz r Hpsz Hal Hsize [Hr Hfit].
  assert (request psz size al = size + al + psz) as Hreq
    by (apply request_no_wrap; lia).
  destruct (aligned_addr_bounds_any psz r al Hpsz) as (Hlo & Hhi); [lia|].
  rewrite sum_no_wrap in Hlo, Hhi by lia.
  assert (slot_addr psz (aligned_addr psz r al) = aligned_addr psz r al - psz) as Hs.
  { unfold slot_addr, SizeT.sub. apply wrap_small. unfold SizeT.in_range. lia. }
  split_and!; [done | lia | lia | done |].
  rewrite aligned_malloc_nonnull by (fold psz r; lia).
  cbv zeta. fold psz r. rewrite Hs, Hreq. unfold store_ptr.
  erewrite in_live_intro; [eexists; split; [reflexivity|]|..].
  - unfold log, grant. rewrite bool_decide_eq_false_2 by lia. reflexivity.
  - apply live_log_grant. lia.
  - lia.
  - lia.
Qed.

(** X2. Memory safety does not need a power of two: for every alignment
    from 1 up, when [malloc] grants the block of the unwrapped length,
    [aligned_malloc] is defined, its handle has no bit of [alignment - 1]
    set, the metadata slot starts above the raw address and the payload ends
    inside the block. *)
Theorem aligned_malloc_any_alignment P h size al :
  0 < ptr_size P -> 1 <= al -> 0 <= size ->
  valid_block (ptr_size P) (raw_pick P h (request (ptr_size P) size al))
    (size + al + ptr_size P) ->
  exists p h', aligned_malloc P h size al = Some (p, h')
    /\ Z.land p (al - 1) = 0
    /\ raw_pick P h (request (ptr_size P) size al) < slot_addr (ptr_size P) p
    /\ slot_addr (ptr_size P) p + ptr_size P = p
    /\ p + size
       <= raw_pick P h (request (ptr_size P) size al)
          + request (ptr_size P) size al.
Proof.
  intros Hpsz Hal Hsize Hv.
  destruct (aligned_malloc_safe P h size al Hpsz Hal Hsize Hv)
    as (Hreq & Hb & Hs & h' & Hh' & _).
  pose proof (aligned_addr_land_mask (ptr_size P)
                (raw_pick P h (request (ptr_size P) size al)) al Hpsz) as Hm.
  specialize (Hm ltac:(destruct Hv; lia)).
  eexists _, h'. split; [exact Hh'|].
  set (r := raw_pick P h (request (ptr_size P) size al)) in *.
  rewrite Hs, Hreq. split_and!; [done|lia..].
Qed.

Lemma aligned_malloc_any_alignment_witness :
  exists p h', aligned_malloc fake_platform empty_heap 100 24 = Some (p, h')
    /\ Z.land p (24 - 1) = 0
    /\ raw_pick fake_platform empty_heap (request 8 100 24) < slot_addr 8 p
    /\ slot_addr 8 p + 8 = p
    /\ p + 100 <= raw_pick fake_platform empty_heap (request 8 100 24)
                  + request 8 100 24.
Proof.
  apply (aligned_malloc_any_alignment fake_platform empty_heap 100 24);
    [simpl; lia..|].
  vm_compute. split; reflexivity.
Defined.

(** ** Where the handle lies in the block *)

(** X3. For a power-of-two alignment the handle is the least multiple of
    the alignment strictly above [r + psz]: it is a multiple of the
    alignment, it lies above [r + psz], no multiple lies between, fewer
    than [alignment] bytes of the slack remain behind the payload, and a raw
    address with [r + psz] already aligned still moves the handle up by a
    whole alignment. *)
Theorem handle_least_aligned psz r k :
  0 < psz -> 0 <= k < 8 * psz -> valid_block psz r (2 ^ k + psz) ->
  aligned_addr psz r (2 ^ k) mod 2 ^ k = 0
  /\ r + psz < aligned_addr psz r (2 ^ k)
  /\ (forall m, m mod 2 ^ k = 0 -> r + psz < m -> aligned_addr psz r (2 ^ k) <= m)
  /\ 0 <= r + 2 ^ k + psz - aligned_addr psz r (2 ^ k) < 2 ^ k
  /\ ((r + psz) mod 2 ^ k = 0 -> aligned_addr psz r (2 ^ k) = r + psz + 2 ^ k).
Proof.
  intros Hpsz Hk Hv.
  destruct (aligned_addr_exact psz Hpsz r k Hk Hv) as [He Hb].
  pose proof (aligned_addr_mod psz Hpsz r k Hk) as Hmod.
  pose proof (pow2_le_half psz k Hk) as Hp.
  assert (forall m, m mod 2 ^ k = 0 -> r + psz < m ->
                    aligned_addr psz r (2 ^ k) <= m) as Hleast.
  { intros m Hm Hgt.
    apply Z.mod_divide in Hm as [j ->]; [|lia].
    apply Z.mod_divide in Hmod as [q Hq]; [|lia].
    rewrite Hq in Hb |- *.
    destruct (Z_le_gt_dec q j) as [Hqj|Hqj].
    - apply Z.mul_le_mono_nonneg_r; lia.
    - assert ((j + 1) * 2 ^ k <= q * 2 ^ k)
        by (apply Z.mul_le_mono_nonneg_r; lia).
      lia. }
  split; [done|]. split; [lia|]. split; [done|]. split.
  - rewrite He. pose proof (round_down_bounds (r + 2 ^ k + psz) (2 ^ k)). lia.
  - intros Hal.
    assert ((r + psz + 2 ^ k) mod 2 ^ k = 0) as Hnext.
    { rewrite <- (Z.mul_1_l (2 ^ k)) at 1. rewrite Z.mod_add by lia. done. }
    pose proof (Hleast _ Hnext ltac:(lia)) as Hle.
    apply Z.mod_divide in Hal as [c Hc]; [|lia].
    apply Z.mod_divide in Hmod as [q Hq]; [|lia].
    rewrite Hq, Hc in Hb, Hle |- *.
    destruct (Z_le_gt_dec q c) as [Hqc|Hqc].
    + assert (q * 2 ^ k <= c * 2 ^ k)
        by (apply Z.mul_le_mono_nonneg_r; lia).
      lia.
    + assert ((c + 1) * 2 ^ k <= q * 2 ^ k)
        by (apply Z.mul_le_mono_nonneg_r; lia).
      lia.
Qed.

Lemma handle_least_aligned_witness :
  aligned_addr 8 4104 (2 ^ 3) mod 2 ^ 3 = 0
  /\ 4104 + 8 < aligned_addr 8 4104 (2 ^ 3)
  /\ (forall m, m mod 2 ^ 3 = 0 -> 4104 + 8 < m -> aligned_addr 8 4104 (2 ^ 3) <= m)
  /\ 0 <= 4104 + 2 ^ 3 + 8 - aligned_addr 8 4104 (2 ^ 3) < 2 ^ 3
  /\ ((4104 + 8) mod 2 ^ 3 = 0 -> aligned_addr 8 4104 (2 ^ 3) = 4104 + 8 + 2 ^ 3).
Proof.
  apply (handle_least_aligned 8 4104 3); [lia | lia |].
  unfold valid_block, SizeT.modulus. simpl. lia.
Defined.

(** ** The request of line 8 *)

Lemma request_mod psz size al :
  request psz size al = (size + al + psz) mod SizeT.modulus psz.
Proof.
  unfold request, SizeT.add, SizeT.wrap. apply Zplus_mod_idemp_l.
Qed.

(** X4. The request of line 8 is the intended sum exactly when the sum
    fits a [size_t]; when it does not, what is asked of [malloc] is less than
    [alignment + psz] bytes, too little even for the slack. *)
Theorem request_exact_iff psz size al :
  0 < psz -> SizeT.in_range psz size -> SizeT.in_range psz al ->
  (request psz size al = size + al + psz <-> size + al + psz < SizeT.modulus psz)
  /\ (SizeT.modulus psz <= size + al + psz -> request psz size al < al + psz).
Proof.
  intros Hpsz [Hs0 Hs1] [Ha0 Ha1].
  pose proof (psz_lt_half psz Hpsz). pose proof (modulus_double psz Hpsz).
  pose proof (Z.mod_pos_bound (size + al + psz) (SizeT.modulus psz) ltac:(lia)) as Hb.
  rewrite request_mod. split; [split|].
  - intros Heq. lia.
  - intros Hlt. apply Z.mod_small. lia.
  - intros Hge.
    destruct (Z_lt_ge_dec (size + al + psz) (2 * SizeT.modulus psz)) as [Hlt|Hge2].
    + rewrite <- (Z.mod_unique (size + al + psz) (SizeT.modulus psz) 1
                    (size + al + psz - SizeT.modulus psz)); lia.
    + rewrite <- (Z.mod_unique (size + al + psz) (SizeT.modulus psz) 2
                    (size + al + psz - 2 * SizeT.modulus psz)); lia.
Qed.

Lemma request_exact_iff_witness :
  (request 8 (2 ^ 64 - 16) 64 = 2 ^ 64 - 16 + 64 + 8 <-> 2 ^ 64 - 16 + 64 + 8 < SizeT.modulus 8)
  /\ (SizeT.modulus 8 <= 2 ^ 64 - 16 + 64 + 8 -> request 8 (2 ^ 64 - 16) 64 < 64 + 8).
Proof.
  apply (request_exact_iff 8 (2 ^ 64 - 16) 64); [lia|..];
    unfold SizeT.in_range, SizeT.modulus; simpl; lia.
Defined.

(** ** Null handles *)

Lemma own_round_null P size al h :
  raw_pick P h (request (ptr_size P) size al) = 0 ->
  own_round P size al h
  = Some (log (Malloc (request (ptr_size P) size al) 0) h).
Proof.
  intros Hr. unfold own_round. rewrite aligned_malloc_null by done. reflexivity.
Qed.

(** X5. For every alignment from 1 up and every size whose request does not
    wrap, with a [malloc] that answers null or a block of the requested
    length, [aligned_malloc] is defined and its handle is null exactly when
    [malloc] answered null: a null handle signals exhaustion and nothing
    else. *)
Theorem null_handle_iff_exhausted P h size al :
  0 < ptr_size P -> 1 <= al -> 0 <= size ->
  size + al + ptr_size P < SizeT.modulus (ptr_size P) ->
  raw_sound P ->
  exists p h', aligned_malloc P h size al = Some (p, h')
    /\ (p = 0 <-> raw_pick P h (request (ptr_size P) size al) = 0).
Proof.
  intros Hpsz Hal Hsize Hfit Hsound.
  assert (request (ptr_size P) size al = size + al + ptr_size P) as Hreq
    by (apply request_no_wrap; lia).
  destruct (Hsound h (request (ptr_size P) size al)) as [Hr|Hv].
  - rewrite aligned_malloc_null by done. eexists _, _. split; [reflexivity|].
    done.
  - rewrite Hreq in Hv at 2.
    destruct (aligned_malloc_safe P h size al Hpsz Hal Hsize Hv)
      as (_ & Hb & _ & h' & Hh' & _).
    eexists _, h'. split; [exact Hh'|]. destruct Hv. lia.
Qed.

Lemma null_handle_iff_exhausted_witness :
  exists p h', aligned_malloc fake_platform empty_heap 64 16 = Some (p, h')
    /\ (p = 0 <-> raw_pick fake_platform empty_heap (request 8 64 16) = 0).
Proof.
  apply (null_handle_iff_exhausted fake_platform empty_heap 64 16);
    [simpl; lia | lia | lia | | apply fake_platform_sound].
  unfold SizeT.modulus. simpl. lia.
Defined.

(** ** Edge cases of the driver *)

(** X6. With an iteration count of zero or below neither loop body runs:
    for every size and alignment, on every platform, [benchmark] is defined,
    leaves the heap alone, reads the clock four times and prints its two
    lines. *)
Theorem benchmark_no_iterations P w size al iterations :
  iterations <= 0 ->
  benchmark P w size al iterations
  = Some (World (mem w) (4 + reads w) (out w +:+ row_report P (reads w))).
Proof.
  intros Hn. assert (Z.to_nat iterations = O) as Hz by lia.
  unfold benchmark, now, on_mem. simpl. rewrite Hz. simpl.
  unfold print_count, print_str, row_report, timing_line. simpl.
  by rewrite !append_assoc.
Qed.

Lemma benchmark_no_iterations_witness :
  benchmark fake_platform boot 64 0 (-3)
  = Some (World (mem boot) (4 + reads boot)
                (out boot +:+ row_report fake_platform (reads boot))).
Proof. apply (benchmark_no_iterations fake_platform boot 64 0 (-3)). lia. Defined.

Lemma requests_replicate_malloc n q r :
  requests (replicate n (Malloc q r)) = replicate n (RawReq q).
Proof.
  induction n as [|n IH]; [done|].
  change (RawReq q :: requests (replicate n (Malloc q r))
          = RawReq q :: replicate n (RawReq q)).
  by rewrite IH.
Qed.

(** On exhaustion the custom loop only piles up [malloc] calls. *)
Lemma loop_own_round_null P size al :
  (forall h n, raw_pick P h n = 0) ->
  forall n h,
    loop n (own_round P size al) h
    = Some (Heap (live h) (cells h)
              (calls h ++ replicate n (Malloc (request (ptr_size P) size al) 0))).
Proof.
  intros Hnull n. induction n as [|n IH]; intros h.
  - simpl. rewrite app_nil_r. by destruct h.
  - simpl. rewrite own_round_null by apply Hnull. simpl. rewrite IH. simpl.
    by rewrite <- app_assoc.
Qed.

(** X7. On a platform whose [malloc] always answers null, [benchmark] is
    defined for every size, alignment and iteration count, alignment 0 or
    a non power of two included. Each custom round is the [malloc] call of
    line 8 and nothing else: the store of line 15 is not reached and
    [aligned_free] of the null handle neither reads nor frees. So the heap
    at the end is the heap the reference loop left, with the same live
    blocks and the same cells, and with one failed [malloc] call logged per
    iteration and no [free]; the two lines are printed. *)
Theorem benchmark_exhausted P w size al iterations :
  (forall h n, raw_pick P h n = 0) ->
  (forall h, aligned_malloc P h size al
             = Some (0, log (Malloc (request (ptr_size P) size al) 0) h))
  /\ (forall h, own_round P size al h
                = Some (log (Malloc (request (ptr_size P) size al) 0) h))
  /\ exists h1 w',
       loop (Z.to_nat iterations) (ref_round P size al) (mem w) = Some h1
       /\ benchmark P w size al iterations = Some w'
       /\ live (mem w') = live h1
       /\ cells (mem w') = cells h1
       /\ calls (mem w')
          = calls h1
            ++ replicate (Z.to_nat iterations)
                 (Malloc (request (ptr_size P) size al) 0)
       /\ out w' = out w +:+ row_report P (reads w)
       /\ requests (calls (mem w'))
          = requests (calls (mem w))
            ++ replicate (Z.to_nat iterations) (RefReq al size)
            ++ replicate (Z.to_nat iterations)
                 (RawReq (request (ptr_size P) size al)).
Proof.
  intros Hnull.
  split; [intros h; apply aligned_malloc_null, Hnull|].
  split; [intros h; apply own_round_null, Hnull|].
  destruct (loop_spec _ _ (ref_round_spec P size al)
              (Z.to_nat iterations) (mem w)) as (h1 & Hl1 & Hc1).
  pose proof (loop_own_round_null P size al Hnull (Z.to_nat iterations) h1) as Hl2.
  exists h1. unfold benchmark, now, on_mem. simpl. rewrite Hl1. simpl.
  rewrite Hl2. simpl. eexists. split; [reflexivity|]. split; [reflexivity|].
  simpl. do 3 (split; [reflexivity|]).
  split.
  - unfold row_report, timing_line. by rewrite !append_assoc.
  - by rewrite requests_app, Hc1, requests_replicate_malloc, <- app_assoc.
Qed.

Lemma benchmark_exhausted_witness :
  exists w',
    benchmark exhausted_platform boot 64 0 2 = Some w'
    /\ live (mem w') = ∅
    /\ cells (mem w') = ∅
    /\ calls (mem w')
       = [AlignedAlloc 0 64 0; Free 0; AlignedAlloc 0 64 0; Free 0;
          Malloc 72 0; Malloc 72 0]
    /\ out w' = out boot +:+ row_report exhausted_platform (reads boot).
Proof.
  destruct (benchmark_exhausted exhausted_platform boot 64 0 2)
    as (_ & _ & h1 & w' & Hl & Hb & Hlive & Hcells & Hcalls & Hout & _);
    [reflexivity|].
  assert (Some h1
          = Some (Heap ∅ ∅ [AlignedAlloc 0 64 0; Free 0; AlignedAlloc 0 64 0; Free 0]))
    as Hh1 by (rewrite <- Hl; vm_compute; reflexivity).
  injection Hh1 as ->.
  exists w'. split_and!; [exact Hb | exact Hlive | exact Hcells | | exact Hout].
  rewrite Hcalls. reflexivity.
Defined.

(** ** What a release leaves behind *)

(** The cells outside a freed block survive the [free]. *)
Lemma filter_lookup_outside (m : gmap Z Z) p n a :
  ~ (p <= a < p + n) ->
  filter (fun c : Z * Z => ~ (p <= c.1 < p + n)) m !! a = m !! a.
Proof.
  intros Ha. rewrite map_lookup_filter.
  destruct (m !! a) as [x|]; [|done]. simpl.
  by rewrite option_guard_True.
Qed.

(** [aligned_free] on a handle whose slot is readable and holds the base of
    a live block. *)
Lemma aligned_free_explicit psz h p r n :
  p <> 0 -> r <> 0 ->
  in_live h (slot_addr psz p) psz = true ->
  cells h !! slot_addr psz p = Some r ->
  live h !! r = Some n ->
  aligned_free psz h p
  = Some (Heap (delete r (live h))
               (filter (fun c : Z * Z => ~ (r <= c.1 < r + n)) (cells h))
               (calls h ++ [Free r])).
Proof.
  intros Hp Hr Hin Hc Hl. unfold aligned_free, load_ptr.
  rewrite bool_decide_eq_false_2, Hin, Hc by done. simpl.
  unfold free. rewrite bool_decide_eq_false_2, Hl by done. reflexivity.
Qed.

(** A heap with fewer live blocks makes fewer addresses accessible. *)
Lemma in_live_subseteq h h' a len :
  live h' ⊆ live h -> in_live h a len = false -> in_live h' a len = false.
Proof.
  intros Hsub Hin. destruct (in_live h' a len) eqn:Hin'; [|done].
  unfold in_live in *. apply existsb_exists in Hin' as ([b m] & Hel & Hcov).
  apply list_elem_of_In, elem_of_map_to_list in Hel.
  assert (existsb (covers a len) (map_to_list (live h)) = true) as Hex.
  { apply existsb_exists. exists (b, m). split; [|done].
    apply list_elem_of_In, elem_of_map_to_list.
    by apply (lookup_weaken _ _ _ _ Hel). }
  congruence.
Qed.

(** The round of lines 49 and 50 when [malloc] grants the block of the
    unwrapped length, in full. *)
Lemma own_round_explicit P h size al :
  let psz := ptr_size P in
  let r := raw_pick P h (request psz size al) in
  let n := size + al + psz in
  0 < psz -> 1 <= al -> 0 <= size -> valid_block psz r n ->
  own_round P size al h
  = Some (Heap (delete r (<[r := n]> (live h)))
               (filter (fun c : Z * Z => ~ (r <= c.1 < r + n))
                  (<[aligned_addr psz r al - psz := r]> (cells h)))
               ((calls h ++ [Malloc n r]) ++ [Free r])).
Proof.
  intros psz r n Hpsz Hal Hsize Hv.
  destruct (aligned_malloc_safe P h size al Hpsz Hal Hsize Hv)
    as (_ & Hb & Hs & h1 & Hh1 & ->).
  fold psz r n in Hb, Hs, Hh1 |- *. destruct Hv as [Hr0 Hend].
  unfold own_round. rewrite Hh1. simpl. fold psz.
  rewrite (aligned_free_explicit _ _ _ r n); [done|lia|lia|..].
  - rewrite Hs. apply (in_live_intro _ r n); simpl;
      [apply lookup_insert_eq | lia | lia].
  - rewrite Hs. simpl. apply lookup_insert_eq.
  - simpl. apply lookup_insert_eq.
Qed.

(** X8. One allocate-and-release of lines 49 and 50, for every alignment
    from 1 up and every size whose request does not wrap, on a platform whose
    [malloc] answers null or a fresh block of the requested length: the round
    is defined, the set of live blocks is what it was, every cell outside the
    raw block holds what it held, and the allocator saw the [malloc] and,
    unless it answered null, the [free] of its answer. *)
Theorem round_restores_heap P h size al :
  0 < ptr_size P -> 1 <= al -> 0 <= size ->
  size + al + ptr_size P < SizeT.modulus (ptr_size P) ->
  raw_sound P -> raw_fresh P ->
  exists h', own_round P size al h = Some h'
    /\ live h' = live h
    /\ (forall a,
          ~ bytes_at (raw_pick P h (request (ptr_size P) size al))
              (request (ptr_size P) size al) a ->
          cells h' !! a = cells h !! a)
    /\ calls h'
       = calls h
         ++ Malloc (request (ptr_size P) size al)
              (raw_pick P h (request (ptr_size P) size al))
            :: (if bool_decide (raw_pick P h (request (ptr_size P) size al) = 0)
                then []
                else [Free (raw_pick P h (request (ptr_size P) size al))]).
Proof.
  intros Hpsz Hal Hsize Hfit Hsound Hfresh.
  assert (request (ptr_size P) size al = size + al + ptr_size P) as Hreq
    by (apply request_no_wrap; lia).
  pose proof (Hfresh h (request (ptr_size P) size al)) as Hnew.
  destruct (Hsound h (request (ptr_size P) size al)) as [Hr|Hv].
  - rewrite own_round_null by done. eexists. split; [reflexivity|].
    rewrite Hr. by rewrite bool_decide_eq_true_2.
  - rewrite Hreq in Hv at 2.
    rewrite (own_round_explicit P h size al Hpsz Hal Hsize Hv).
    destruct (aligned_malloc_safe P h size al Hpsz Hal Hsize Hv) as (_ & Hb & _).
    set (r := raw_pick P h (request (ptr_size P) size al)) in *.
    destruct Hv as [Hr0 Hend]. assert (r <> 0) as Hr1 by lia.
    eexists. split; [reflexivity|]. simpl. split_and!.
    + apply delete_insert_id. by apply Hnew.
    + intros a Ha. rewrite Hreq in Ha. unfold bytes_at in Ha.
      rewrite filter_lookup_outside by done.
      apply lookup_insert_ne. lia.
    + rewrite Hreq, bool_decide_eq_false_2 by done.
      by rewrite <- app_assoc.
Qed.

Lemma slot_platform_sound : raw_sound slot_platform.
Proof.
  intros h n. simpl. case_bool_decide; [right|by left].
  unfold valid_block, SizeT.modulus. simpl. lia.
Qed.

Lemma slot_platform_raw_fresh : raw_fresh slot_platform.
Proof.
  intros h n. simpl. case_bool_decide as Hc; [intros _; by destruct Hc|done].
Qed.

Lemma slot_platform_ref_fresh : ref_fresh slot_platform.
Proof.
  intros h al n. simpl. case_bool_decide as Hc; [intros _; by destruct Hc|done].
Qed.

Lemma round_restores_heap_witness :
  exists h', own_round slot_platform 64 24 empty_heap = Some h'
    /\ live h' = live empty_heap
    /\ (forall a,
          ~ bytes_at (raw_pick slot_platform empty_heap
                        (request (ptr_size slot_platform) 64 24))
              (request (ptr_size slot_platform) 64 24) a ->
          cells h' !! a = cells empty_heap !! a)
    /\ calls h'
       = calls empty_heap
         ++ Malloc (request (ptr_size slot_platform) 64 24)
              (raw_pick slot_platform empty_heap
                 (request (ptr_size slot_platform) 64 24))
            :: (if bool_decide (raw_pick slot_platform empty_heap
                                  (request (ptr_size slot_platform) 64 24) = 0)
                then []
                else [Free (raw_pick slot_platform empty_heap
                              (request (ptr_size slot_platform) 64 24))]).
Proof.
  apply (round_restores_heap slot_platform empty_heap 64 24);
    [simpl; lia | lia | lia | | apply slot_platform_sound
     | apply slot_platform_raw_fresh].
  unfold SizeT.modulus. simpl. lia.
Defined.

(** ** The benchmark leaks nothing *)

Lemma loop_inv (I : heap -> Prop) (body : heap -> option heap) :
  (forall h, I h -> exists h', body h = Some h' /\ I h') ->
  forall n h, I h -> exists h', loop n body h = Some h' /\ I h'.
Proof.
  intros Hbody n. induction n as [|n IH]; intros h Hh.
  - by exists h.
  - destruct (Hbody h Hh) as (h1 & Hb & H1). destruct (IH h1 H1) as (h2 & Hl & H2).
    exists h2. simpl. rewrite Hb. simpl. done.
Qed.

(** Lines 38 and 39 give back what they take. *)
Lemma ref_round_keeps_live P size al h :
  ref_fresh P ->
  exists h', ref_round P size al h = Some h' /\ live h' = live h.
Proof.
  intros Hfresh. unfold ref_round, std_aligned_alloc.
  pose proof (Hfresh h al size) as Hnew.
  destruct (decide (ref_pick P h al size = 0)) as [Hr|Hr].
  - rewrite Hr. eexists. split; [reflexivity|]. done.
  - unfold free. rewrite bool_decide_eq_false_2 by done.
    rewrite live_log_grant by done.
    eexists. split; [reflexivity|]. simpl.
    unfold grant. rewrite bool_decide_eq_false_2 by done. simpl.
    apply delete_insert_id. by apply Hnew.
Qed.

Lemma own_round_keeps_live P h size al :
  0 < ptr_size P -> 1 <= al -> 0 <= size ->
  size + al + ptr_size P < SizeT.modulus (ptr_size P) ->
  raw_sound P -> raw_fresh P ->
  exists h', own_round P size al h = Some h' /\ live h' = live h.
Proof.
  intros Hpsz Hal Hsize Hfit Hsound Hfresh.
  assert (request (ptr_size P) size al = size + al + ptr_size P) as Hreq
    by (apply request_no_wrap; lia).
  destruct (Hsound h (request (ptr_size P) size al)) as [Hr|Hv].
  - rewrite own_round_null by done. by eexists.
  - rewrite Hreq in Hv at 2.
    rewrite (own_round_explicit P h size al Hpsz Hal Hsize Hv).
    eexists. split; [reflexivity|]. simpl.
    apply delete_insert_id, Hfresh. destruct Hv. lia.
Qed.

Lemma benchmark_keeps_live P w size al iterations :
  0 < ptr_size P -> 1 <= al -> 0 <= size ->
  size + al + ptr_size P < SizeT.modulus (ptr_size P) ->
  raw_sound P -> raw_fresh P -> ref_fresh P ->
  exists w', benchmark P w size al iterations = Some w'
    /\ live (mem w') = live (mem w).
Proof.
  intros Hpsz Hal Hsize Hfit Hsound Hraw Href.
  destruct (loop_inv (fun h => live h = live (mem w)) (ref_round P size al))
    with (n := Z.to_nat iterations) (h := mem w) as (h1 & Hl1 & Hi1); [|done|].
  { intros h Hh. destruct (ref_round_keeps_live P size al h Href) as (h' & ? & ?).
    exists h'. split; [done|]. congruence. }
  destruct (loop_inv (fun h => live h = live (mem w)) (own_round P size al))
    with (n := Z.to_nat iterations) (h := h1) as (h2 & Hl2 & Hi2); [|done|].
  { intros h Hh.
    destruct (own_round_keeps_live P h size al Hpsz Hal Hsize Hfit Hsound Hraw)
      as (h' & ? & ?).
    exists h'. split; [done|]. congruence. }
  unfold benchmark, now, on_mem. simpl. rewrite Hl1. simpl. rewrite Hl2. simpl.
  eexists. split; [reflexivity|]. done.
Qed.

(** X9. On a platform with pointers of at least 32 bits whose allocators
    answer null or a fresh block, [malloc]'s inside the address space, the
    whole of [main] gives back every block it takes: it is defined, returns
    0, and the set of live blocks at the end is the one at the start. *)
Theorem main_leaks_nothing P w :
  4 <= ptr_size P -> raw_sound P -> raw_fresh P -> ref_fresh P ->
  exists w', main P w = Some (0, w') /\ live (mem w') = live (mem w).
Proof.
  intros Hpsz Hsound Hraw Href.
  pose proof (modulus_ge_32 _ Hpsz) as Hm.
  assert (0 < ptr_size P) as Hpos by lia.
  pose proof (psz_lt_half _ Hpos) as Hhalf.
  pose proof (modulus_double _ Hpos) as Hdbl.
  unfold main.
  rewrite !to_size_t_small by (done || lia).
  destruct (benchmark_keeps_live P w 64 16 100000) as (w1 & -> & H1);
    [lia | lia | lia | lia | done | done | done |].
  destruct (benchmark_keeps_live P w1 128 32 100000) as (w2 & Hb2 & H2);
    [lia | lia | lia | lia | done | done | done |].
  destruct (benchmark_keeps_live P w2 256 64 100000) as (w3 & Hb3 & H3);
    [lia | lia | lia | lia | done | done | done |].
  destruct (benchmark_keeps_live P w3 1024 64 100000) as (w4 & Hb4 & H4);
    [lia | lia | lia | lia | done | done | done |].
  destruct (benchmark_keeps_live P w4 (1024 * 1024) 64 1000) as (w5 & Hb5 & H5);
    [lia | lia | lia | lia | done | done | done |].
  exists w5. cbn [mbind option_bind]. rewrite Hb2. cbn [mbind option_bind].
  rewrite Hb3. cbn [mbind option_bind]. rewrite Hb4. cbn [mbind option_bind].
  rewrite Hb5. cbn [mbind option_bind].
  split; [reflexivity|]. congruence.
Qed.

Lemma main_leaks_nothing_witness :
  exists w', main slot_platform boot = Some (0, w')
    /\ live (mem w') = live (mem boot).
Proof.
  apply (main_leaks_nothing slot_platform boot).
  - change (4 <= 8). lia.
  - apply slot_platform_sound.
  - apply slot_platform_raw_fresh.
  - apply slot_platform_ref_fresh.
Defined.

(** ** Two handles at a time *)

(** X10. Two allocations in a row, for any alignments from 1 up, in raw
    blocks of the unwrapped lengths that share no byte: the second call
    leaves the metadata of the first intact, each slot holds its own raw
    address, and releasing the first handle and then the second is defined
    and hands the two raw addresses to [free] in that order. *)
Theorem two_handles_independent P h s1 al1 s2 al2 p1 h1 :
  0 < ptr_size P -> 1 <= al1 -> 1 <= al2 -> 0 <= s1 -> 0 <= s2 ->
  valid_block (ptr_size P) (raw_pick P h (request (ptr_size P) s1 al1))
    (s1 + al1 + ptr_size P) ->
  aligned_malloc P h s1 al1 = Some (p1, h1) ->
  valid_block (ptr_size P) (raw_pick P h1 (request (ptr_size P) s2 al2))
    (s2 + al2 + ptr_size P) ->
  blocks_apart (raw_pick P h (request (ptr_size P) s1 al1)) (s1 + al1 + ptr_size P)
               (raw_pick P h1 (request (ptr_size P) s2 al2)) (s2 + al2 + ptr_size P) ->
  exists p2 h2 h3 h4,
    aligned_malloc P h1 s2 al2 = Some (p2, h2)
    /\ load_ptr (ptr_size P) h2 (slot_addr (ptr_size P) p1)
       = Some (raw_pick P h (request (ptr_size P) s1 al1))
    /\ load_ptr (ptr_size P) h2 (slot_addr (ptr_size P) p2)
       = Some (raw_pick P h1 (request (ptr_size P) s2 al2))
    /\ aligned_free (ptr_size P) h2 p1 = Some h3
    /\ aligned_free (ptr_size P) h3 p2 = Some h4
    /\ calls h4
       = calls h
         ++ [Malloc (s1 + al1 + ptr_size P) (raw_pick P h (request (ptr_size P) s1 al1));
             Malloc (s2 + al2 + ptr_size P) (raw_pick P h1 (request (ptr_size P) s2 al2));
             Free (raw_pick P h (request (ptr_size P) s1 al1));
             Free (raw_pick P h1 (request (ptr_size P) s2 al2))].
Proof.
  intros Hpsz Hal1 Hal2 Hs1 Hs2 Hv1 Ham1 Hv2 Hapart.
  destruct (aligned_malloc_safe P h s1 al1 Hpsz Hal1 Hs1 Hv1)
    as (_ & Hb1 & Hsl1 & h1' & Hh1 & Hh1').
  rewrite Ham1 in Hh1. injection Hh1 as -> <-.
  destruct (aligned_malloc_safe P h1 s2 al2 Hpsz Hal2 Hs2 Hv2)
    as (_ & Hb2 & Hsl2 & h2 & Hh2 & Hh2').
  set (psz := ptr_size P) in *.
  set (r1 := raw_pick P h (request psz s1 al1)) in *.
  set (r2 := raw_pick P h1 (request psz s2 al2)) in *.
  set (q1 := aligned_addr psz r1 al1) in *.
  set (q2 := aligned_addr psz r2 al2) in *.
  set (n1 := s1 + al1 + psz) in *. set (n2 := s2 + al2 + psz) in *.
  destruct Hv1 as [Hr1 He1]. destruct Hv2 as [Hr2 He2].
  assert (r1 <> r2 /\ q1 - psz <> q2 - psz
          /\ ~ (r1 <= q2 - psz < r1 + n1)) as (Hne & Hsne & Hout)
    by (unfold blocks_apart in Hapart; lia).
  assert (live h2 !! r1 = Some n1) as Hl1.
  { rewrite Hh2', Hh1'. simpl. rewrite lookup_insert_ne by done.
    apply lookup_insert_eq. }
  assert (live h2 !! r2 = Some n2) as Hl2
    by (rewrite Hh2'; simpl; apply lookup_insert_eq).
  assert (cells h2 !! (q1 - psz) = Some r1) as Hc1.
  { rewrite Hh2', Hh1'. simpl. rewrite lookup_insert_ne by done.
    apply lookup_insert_eq. }
  assert (cells h2 !! (q2 - psz) = Some r2) as Hc2
    by (rewrite Hh2'; simpl; apply lookup_insert_eq).
  assert (in_live h2 (q1 - psz) psz = true) as Hin1
    by (apply (in_live_intro _ r1 n1); [done|lia..]).
  assert (in_live h2 (q2 - psz) psz = true) as Hin2
    by (apply (in_live_intro _ r2 n2); [done|lia..]).
  exists q2, h2. eexists _, _. split; [exact Hh2|].
  rewrite Hsl1, Hsl2. unfold load_ptr. rewrite Hin1, Hin2.
  split; [done|]. split; [done|].
  split.
  { apply (aligned_free_explicit psz h2 q1 r1 n1); [lia | lia | | | done];
      by rewrite Hsl1. }
  split.
  - apply (aligned_free_explicit psz _ q2 r2 n2); [lia | lia | ..].
    + rewrite Hsl2. apply (in_live_intro _ r2 n2); simpl; [|lia..].
      by rewrite lookup_delete_ne.
    + rewrite Hsl2. simpl. by rewrite filter_lookup_outside.
    + simpl. by rewrite lookup_delete_ne.
  - simpl. rewrite Hh2', Hh1'. simpl. by rewrite <- !app_assoc.
Qed.

Lemma two_handles_independent_witness :
  exists p1 h1 p2 h2 h3 h4,
    aligned_malloc paging_platform empty_heap 64 16 = Some (p1, h1)
    /\ aligned_malloc paging_platform h1 100 24 = Some (p2, h2)
    /\ load_ptr 8 h2 (slot_addr 8 p1) = Some 4104
    /\ load_ptr 8 h2 (slot_addr 8 p2) = Some 8200
    /\ aligned_free 8 h2 p1 = Some h3
    /\ aligned_free 8 h3 p2 = Some h4
    /\ calls h4 = [Malloc 88 4104; Malloc 132 8200; Free 4104; Free 8200].
Proof.
  pose (h1 := Heap (<[4104 := 88]> ∅) (<[4120 := 4104]> ∅) [Malloc 88 4104]).
  assert (aligned_malloc paging_platform empty_heap 64 16 = Some (4128, h1)) as Ham1
    by (vm_compute; reflexivity).
  destruct (two_handles_independent paging_platform empty_heap 64 16 100 24 4128 h1)
    as (p2 & h2 & h3 & h4 & Ham2 & Hl1 & Hl2 & Hf1 & Hf2 & Hc);
    [simpl; lia | lia | lia | lia | lia | | exact Ham1 | | |].
  - vm_compute. split; reflexivity.
  - vm_compute. split; reflexivity.
  - vm_compute. left. discriminate.
  - exists 4128, h1, p2, h2, h3, h4. split_and!; done.
Defined.

(** ** Releasing twice *)

(** X11. A handle can be released once: after [aligned_free] has released
    a non-null handle whose slot lay in no block that was live before the
    allocation, a second [aligned_free] of the same handle has no defined
    result. Nothing in lines 22 to 27 detects it. *)
Theorem double_release_undefined P h size al p h1 h2 :
  aligned_malloc P h size al = Some (p, h1) -> p <> 0 ->
  in_live h (slot_addr (ptr_size P) p) (ptr_size P) = false ->
  aligned_free (ptr_size P) h1 p = Some h2 ->
  aligned_free (ptr_size P) h2 p = None.
Proof.
  intros Ham Hp Hold Hfree.
  destruct (aligned_malloc_inv P h size al p h1 Ham Hp) as (Hr & _ & Hst).
  set (n := request (ptr_size P) size al) in *.
  set (r := raw_pick P h n) in *.
  destruct (aligned_free_stored _ _ _ _ n _ Hst Hp Hr (live_log_grant _ _ _ h Hr))
    as (h3 & Hf & _ & Hl).
  rewrite Hfree in Hf. injection Hf as <-.
  apply store_ptr_inv in Hst as [_ Hh1].
  assert (live h2 ⊆ live h) as Hsub.
  { rewrite Hl, Hh1. simpl. unfold grant.
    rewrite bool_decide_eq_false_2 by done. simpl.
    rewrite delete_insert_eq. apply delete_subseteq. }
  unfold aligned_free, load_ptr. rewrite bool_decide_eq_false_2 by done.
  by rewrite (in_live_subseteq h h2 _ _ Hsub Hold).
Qed.

Lemma double_release_undefined_witness :
  exists h1 h2,
    aligned_malloc fake_platform empty_heap 64 16 = Some (4128, h1)
    /\ aligned_free 8 h1 4128 = Some h2
    /\ aligned_free 8 h2 4128 = None.
Proof.
  pose (h1 := Heap (<[4104 := 88]> ∅) (<[4120 := 4104]> ∅) [Malloc 88 4104]).
  pose (h2 := Heap ∅ ∅ [Malloc 88 4104; Free 4104]).
  assert (aligned_malloc fake_platform empty_heap 64 16 = Some (4128, h1)) as Ham
    by (vm_compute; reflexivity).
  assert (aligned_free 8 h1 4128 = Some h2) as Hfree
    by (vm_compute; reflexivity).
  exists h1, h2. split_and!; [done..|].
  apply (double_release_undefined fake_platform empty_heap 64 16 4128 h1 h2);
    [exact Ham | lia | reflexivity | exact Hfree].
Defined.

(** ** Alignment of the metadata slot *)

(** When [r + psz] is already a multiple of the alignment the handle is one
    whole alignment further. *)
Lemma aligned_addr_already_aligned psz r k :
  0 < psz -> 0 <= k < 8 * psz -> valid_block psz r (2 ^ k + psz) ->
  (r + psz) mod 2 ^ k = 0 -> aligned_addr psz r (2 ^ k) = r + psz + 2 ^ k.
Proof.
  intros Hpsz Hk Hv Hal.
  destruct (aligned_addr_exact psz Hpsz r k Hk Hv) as [He _].
  pose proof (pow2_le_half psz k Hk) as Hp.
  apply Z.mod_divide in Hal as [c Hc]; [|lia].
  rewrite He. replace (r + 2 ^ k + psz) with ((c + 1) * 2 ^ k) by lia.
  rewrite Z.div_mul by lia. lia.
Qed.

(** X12. When the size of a pointer is a power of two and the alignment is
    a power of two no smaller than it, the slot line 15 writes and line 25
    reads is itself aligned for a pointer. *)
Theorem slot_pointer_aligned psz j r k :
  0 < psz -> psz = 2 ^ j -> 0 <= j <= k -> k < 8 * psz ->
  valid_block psz r (2 ^ k + psz) ->
  slot_addr psz (aligned_addr psz r (2 ^ k)) mod psz = 0.
Proof.
  intros Hpsz Hj Hjk Hk Hv.
  destruct (slot_addr_exact psz Hpsz r k ltac:(lia) Hv) as [-> _].
  pose proof (aligned_addr_mod psz Hpsz r k ltac:(lia)) as Hmod.
  assert (0 < 2 ^ k) by (apply Z.pow_pos_nonneg; lia).
  apply Z.mod_divide in Hmod as [q Hq]; [|lia].
  rewrite Hq. replace k with ((k - j) + j) at 1 by lia.
  rewrite Z.pow_add_r, <- Hj by lia.
  replace (q * (2 ^ (k - j) * psz) - psz) with ((q * 2 ^ (k - j) - 1) * psz) by lia.
  apply Z.mod_mul. lia.
Qed.

Lemma slot_pointer_aligned_witness :
  slot_addr 8 (aligned_addr 8 4107 (2 ^ 4)) mod 8 = 0.
Proof.
  apply (slot_pointer_aligned 8 3 4107 4); [lia | reflexivity | lia | lia |].
  unfold valid_block, SizeT.modulus. simpl. lia.
Defined.

(** X13. When the alignment is a power of two smaller than the size of a
    pointer and [malloc] answers an address aligned for a pointer, the slot
    of lines 15 and 25 is at [r + alignment], which is not aligned for a
    pointer: the metadata is stored through a misaligned [void**]. *)
Theorem slot_misaligned_below_pointer_size psz j r k :
  0 < psz -> psz = 2 ^ j -> 0 <= k < j ->
  valid_block psz r (2 ^ k + psz) -> r mod psz = 0 ->
  slot_addr psz (aligned_addr psz r (2 ^ k)) = r + 2 ^ k
  /\ slot_addr psz (aligned_addr psz r (2 ^ k)) mod psz = 2 ^ k
  /\ slot_addr psz (aligned_addr psz r (2 ^ k)) mod psz <> 0.
Proof.
  intros Hpsz Hj Hkj Hv Hr.
  assert (j < 8 * psz) as Hj8.
  { assert (j < 2 ^ j) by (apply Z.pow_gt_lin_r; lia). lia. }
  assert (0 <= k < 8 * psz) as Hk by lia.
  assert (0 < 2 ^ k) as Hpos by (apply Z.pow_pos_nonneg; lia).
  assert (2 ^ k < psz) as Hlt by (rewrite Hj; apply Z.pow_lt_mono_r; lia).
  assert (psz = 2 ^ (j - k) * 2 ^ k) as Hsplit
    by (rewrite <- Z.pow_add_r by lia; rewrite Hj; f_equal; lia).
  apply Z.mod_divide in Hr as [c Hc]; [|lia].
  assert ((r + psz) mod 2 ^ k = 0) as Hal.
  { replace (r + psz) with ((c + 1) * 2 ^ (j - k) * 2 ^ k) by lia.
    apply Z.mod_mul. lia. }
  destruct (slot_addr_exact psz Hpsz r k Hk Hv) as [Hs _].
  rewrite Hs, (aligned_addr_already_aligned psz r k Hpsz Hk Hv Hal).
  assert ((r + psz + 2 ^ k - psz) mod psz = 2 ^ k) as Hm.
  { replace (r + psz + 2 ^ k - psz) with (2 ^ k + c * psz) by lia.
    rewrite Z.mod_add by lia. apply Z.mod_small. lia. }
  split; [lia|]. split; [done|]. lia.
Qed.

Lemma slot_misaligned_below_pointer_size_witness :
  slot_addr 8 (aligned_addr 8 4104 (2 ^ 1)) = 4104 + 2 ^ 1
  /\ slot_addr 8 (aligned_addr 8 4104 (2 ^ 1)) mod 8 = 2 ^ 1
  /\ slot_addr 8 (aligned_addr 8 4104 (2 ^ 1)) mod 8 <> 0.
Proof.
  apply (slot_misaligned_below_pointer_size 8 3 4104 1);
    [lia | reflexivity | lia | | reflexivity].
  unfold valid_block, SizeT.modulus. simpl. lia.
Defined.

(** ** A slot that was overwritten *)

(** X14. [aligned_free] trusts the slot: when, after the allocation, the
    slot below a non-null handle is overwritten with the base [v] of another
    live block, releasing the handle is defined, hands [v] to [free] and
    leaves the handle's own raw block live. *)
Theorem aligned_free_trusts_slot P h size al p h1 v m h1' :
  aligned_malloc P h size al = Some (p, h1) -> p <> 0 ->
  v <> 0 -> v <> raw_pick P h (request (ptr_size P) size al) ->
  live h1 !! v = Some m ->
  store_ptr (ptr_size P) h1 (slot_addr (ptr_size P) p) v = Some h1' ->
  exists h2, aligned_free (ptr_size P) h1' p = Some h2
    /\ calls h2 = calls h1 ++ [Free v]
    /\ live h2 !! v = None
    /\ live h2 !! raw_pick P h (request (ptr_size P) size al)
       = Some (request (ptr_size P) size al).
Proof.
  intros Ham Hp Hv Hne Hlv Hover.
  destruct (aligned_malloc_inv P h size al p h1 Ham Hp) as (Hr & _ & Hst).
  destruct (aligned_free_stored _ _ _ _ m _ Hover Hp Hv Hlv) as (h2 & Hf & Hc & Hl).
  apply store_ptr_inv in Hover as [_ Hh1'].
  apply store_ptr_inv in Hst as [_ Hh1].
  exists h2. split; [done|]. rewrite Hc, Hl, Hh1'. simpl.
  split; [done|]. split; [apply lookup_delete_eq|].
  rewrite lookup_delete_ne by done.
  rewrite Hh1. cbn [live]. by apply live_log_grant.
Qed.

Lemma aligned_free_trusts_slot_witness :
  exists h1 h2 h3 h4,
    aligned_malloc paging_platform empty_heap 64 16 = Some (4128, h1)
    /\ aligned_malloc paging_platform h1 64 16 = Some (8224, h2)
    /\ store_ptr 8 h2 (slot_addr 8 8224) 4104 = Some h3
    /\ aligned_free 8 h3 8224 = Some h4
    /\ calls h4 = calls h2 ++ [Free 4104]
    /\ live h4 !! 4104 = None
    /\ live h4 !! 8200 = Some 88.
Proof.
  pose (h1 := Heap (<[4104 := 88]> ∅) (<[4120 := 4104]> ∅) [Malloc 88 4104]).
  pose (h2 := Heap (<[8200 := 88]> (<[4104 := 88]> ∅))
                   (<[8216 := 8200]> (<[4120 := 4104]> ∅))
                   [Malloc 88 4104; Malloc 88 8200]).
  pose (h3 := Heap (<[8200 := 88]> (<[4104 := 88]> ∅))
                   (<[8216 := 4104]> (<[4120 := 4104]> ∅))
                   [Malloc 88 4104; Malloc 88 8200]).
  assert (aligned_malloc paging_platform empty_heap 64 16 = Some (4128, h1)) as Ham1
    by (vm_compute; reflexivity).
  assert (aligned_malloc paging_platform h1 64 16 = Some (8224, h2)) as Ham2
    by (vm_compute; reflexivity).
  assert (store_ptr 8 h2 (slot_addr 8 8224) 4104 = Some h3) as Hover
    by (vm_compute; reflexivity).
  destruct (aligned_free_trusts_slot paging_platform h1 64 16 8224 h2 4104 88 h3)
    as (h4 & Hf & Hc & Hgone & Hleak);
    [exact Ham2 | lia | lia | vm_compute; discriminate | vm_compute; reflexivity
     | exact Hover |].
  exists h1, h2, h3, h4. split_and!; done.
Defined.
